(** * perlin_art: noise-driven moving points gated by regions

    A shallow embedding of [perlin_art.py].  Coordinates, increments and
    colour weights are [np.float64] / Python floats in the program; they are
    modelled by exact rationals [Q] (rounding is not modelled), with the
    non-finite results of a NumPy division kept apart in [npfloat].  Integers
    (grid sizes, random draws, pixel indices, colour channels) are [Z].

    Effects are explicit: a state-and-exception monad [M S] threads the
    mutable state a function touches (the NumPy random generator, the wall
    clock, the global [CANVAS], the list of points a group owns) and carries
    the Python exception, if one is raised, together with the state reached
    when it was raised. *)

From Stdlib Require Import ZArith QArith Qfield Lqa Bool List String Lia.
From Stdlib Require Import DecimalString.
Import ListNotations.

Local Open Scope Z_scope.
Local Open Scope Q_scope.

(** ** Python exceptions and results *)

Inductive exn : Type :=
| AssertionError (msg : string)
| NotImplementedError (msg : string)
| TypeError
| IndexError
| ValueError.

Inductive Result (A : Type) : Type :=
| Ok (a : A)
| Raise (e : exn).

Arguments Ok {A} a.
Arguments Raise {A} e.

Definition raises {A : Type} (r : Result A) : Prop :=
  exists e, r = Raise e.

Definition returns {A : Type} (r : Result A) : Prop :=
  exists a, r = Ok a.

(** ** State and exception monad *)

Definition M (S A : Type) : Type := S -> Result A * S.

Definition ret {S A : Type} (a : A) : M S A := fun s => (Ok a, s).

Definition bind {S A B : Type} (c : M S A) (k : A -> M S B) : M S B :=
  fun s =>
    match c s with
    | (Ok a, s') => k a s'
    | (Raise e, s') => (Raise e, s')
    end.

Definition lift {S A : Type} (r : Result A) : M S A := fun s => (r, s).

Definition get {S : Type} : M S S := fun s => (Ok s, s).

Definition modify {S : Type} (f : S -> S) : M S unit := fun s => (Ok tt, f s).

Declare Scope monad_scope.
Delimit Scope monad_scope with monad.
Notation "x <- c ;; k" := (bind c (fun x => k))
  (at level 61, c at next level, right associativity) : monad_scope.
Notation "c ;;; k" := (bind c (fun _ => k))
  (at level 61, right associativity) : monad_scope.
Local Open Scope monad_scope.

(** [for x in xs: body x] *)
Fixpoint for_each {S A : Type} (xs : list A) (body : A -> M S unit) : M S unit :=
  match xs with
  | [] => ret tt
  | x :: rest => body x ;;; for_each rest body
  end.

(** [[f() for _ in range(n)]] *)
Fixpoint comprehension {S A : Type} (n : nat) (f : M S A) : M S (list A) :=
  match n with
  | O => ret []
  | Datatypes.S n' => a <- f ;; rest <- comprehension n' f ;; ret (a :: rest)
  end.

(** ** Numbers *)

(** Python's [int(v)] on a float: truncation toward zero. *)
Definition py_int (q : Q) : Z := Z.quot (Qnum q) (Zpos (Qden q)).

(** Truthiness of a number: [if v:] holds unless [v] is zero. *)
Definition truthyQ (q : Q) : bool := negb (Qeq_bool q 0).
Definition truthyZ (n : Z) : bool := negb (Z.eqb n 0).

(** [v >= lo and v <= hi] *)
Definition between (v lo hi : Q) : bool := Qle_bool lo v && Qle_bool v hi.

(** Result of [np.float64 / np.float64]: division by zero does not raise, it
    yields an infinity or a NaN. *)
Inductive npfloat : Type :=
| Finite (q : Q)
| PosInf
| NegInf
| NaN.

Definition np_divide (a b : Q) : npfloat :=
  if Qeq_bool b 0 then
    match a ?= 0 with
    | Eq => NaN
    | Gt => PosInf
    | Lt => NegInf
    end
  else Finite (a / b).

Definition np_add (u v : npfloat) : npfloat :=
  match u, v with
  | NaN, _ | _, NaN => NaN
  | PosInf, NegInf | NegInf, PosInf => NaN
  | PosInf, _ | _, PosInf => PosInf
  | NegInf, _ | _, NegInf => NegInf
  | Finite a, Finite b => Finite (a + b)
  end.

(** [u <= q] for a finite [q]: comparisons with NaN are false. *)
Definition np_le (u : npfloat) (q : Q) : bool :=
  match u with
  | Finite a => Qle_bool a q
  | NegInf => true
  | PosInf | NaN => false
  end.

(** ** rgba2rgb *)

Definition rgba_msg : string := "Need 4 channel RGBA if no alpha defined".

(** [seq[i]] for a non-negative literal index. *)
Definition item {A : Type} (l : list A) (i : nat) : Result A :=
  match nth_error l i with
  | Some v => Ok v
  | None => Raise IndexError
  end.

(** [seq[-1]] *)
Definition last_item {A : Type} (l : list A) : Result A :=
  match rev l with
  | v :: _ => Ok v
  | [] => Raise IndexError
  end.

Definition bindR {A B : Type} (r : Result A) (k : A -> Result B) : Result B :=
  match r with
  | Ok a => k a
  | Raise e => Raise e
  end.

Definition blend (a : Q) (background color : list Q) (i : nat) : Result Z :=
  bindR (item background i) (fun bg =>
  bindR (item color i) (fun c =>
  Ok (py_int (((1 - a) * bg) + (a * c))))).

(** [assert cond, msg] *)
Definition py_assert (cond : bool) (msg : string) : Result unit :=
  if cond then Ok tt else Raise (AssertionError msg).

(** The [else] branch of [if alpha:]: the alpha channel is read from the
    colour, which must then have exactly four channels. *)
Definition alpha_of_color (color : list Q) : Result Q :=
  bindR (py_assert (Nat.eqb (List.length color) 4) rgba_msg)
        (fun _ => last_item color).

Definition rgba2rgb (color background : list Q) (alpha : option Q)
  : Result (Z * Z * Z) :=
  bindR (match alpha with
         | Some al => if truthyQ al then Ok al else alpha_of_color color
         | None => alpha_of_color color
         end) (fun a =>
  bindR (blend a background color 0) (fun r =>
  bindR (blend a background color 1) (fun g =>
  bindR (blend a background color 2) (fun b =>
  Ok (r, g, b))))).

(** ** Global state: canvas, random generator, wall clock *)

(** [CANVAS[row][col]] holds three channel values. *)
Definition Pixels : Type := Z -> Z -> Z * Z * Z.

(** One call [cv2.line(CANVAS, pt1, pt2, color, thickness)]. *)
Record Segment : Type := mkSegment {
  pt1 : Q * Q;
  pt2 : Q * Q;
  color : Z * Z * Z;
  thickness : Z
}.

(** The libraries the program calls but does not define. *)
Class Externals : Type := {
  (** [noise.pnoise3] *)
  pnoise3 : Q -> Q -> Q -> Q;
  (** what [cv2.line] does to the pixel buffer *)
  rasterize : Pixels -> Segment -> Pixels
}.

(** [shape0], [shape1] are [CANVAS.shape[0]] and [CANVAS.shape[1]];
    [segments] records the calls of [cv2.line], the latest first. *)
Record Canvas : Type := mkCanvas {
  shape0 : Z;
  shape1 : Z;
  pixels : Pixels;
  segments : list Segment
}.

(** [np.zeros((1000, 1000, 3), np.uint8)] *)
Definition CANVAS0 : Canvas :=
  {| shape0 := 1000; shape1 := 1000;
     pixels := fun _ _ => (0, 0, 0)%Z; segments := [] |}.

(** [np_random k] is the raw value behind the [k]-th draw of the generator and
    [wall_clock k] the value of the [k]-th call of [time.time()]. *)
Record World : Type := mkWorld {
  CANVAS : Canvas;
  np_random : nat -> Z;
  np_draws : nat;
  wall_clock : nat -> Q;
  clock_reads : nat
}.

Definition set_CANVAS (c : Canvas) (w : World) : World :=
  {| CANVAS := c; np_random := np_random w; np_draws := np_draws w;
     wall_clock := wall_clock w; clock_reads := clock_reads w |}.

(** [np.random.randint(low, high)]: an integer of [[low, high)]. *)
Definition randint (low high : Z) : M World Z :=
  fun w =>
    if (low <? high)%Z then
      (Ok (low + (np_random w (np_draws w)) mod (high - low))%Z,
       {| CANVAS := CANVAS w; np_random := np_random w;
          np_draws := Datatypes.S (np_draws w);
          wall_clock := wall_clock w; clock_reads := clock_reads w |})
    else (Raise ValueError, w).

(** [time.time()] *)
Definition time_time : M World Q :=
  fun w =>
    (Ok (wall_clock w (clock_reads w)),
     {| CANVAS := CANVAS w; np_random := np_random w; np_draws := np_draws w;
        wall_clock := wall_clock w;
        clock_reads := Datatypes.S (clock_reads w) |}).

(** Index [i] into an axis of length [n]: negative indices count from the
    end, anything outside [[-n, n)] raises. *)
Definition np_index (n i : Z) : Result Z :=
  if ((0 <=? i) && (i <? n))%Z then Ok i
  else if ((- n <=? i) && (i <? 0))%Z then Ok (i + n)%Z
  else Raise IndexError.

(** [CANVAS[i][j]] *)
Definition canvas_getitem (c : Canvas) (i j : Z) : Result (Z * Z * Z) :=
  bindR (np_index (shape0 c) i) (fun r =>
  bindR (np_index (shape1 c) j) (fun k =>
  Ok (pixels c r k))).

(** [np.linspace(start, stop, num)] with the default [endpoint=True]. *)
Definition linspace (start stop : Q) (num : Z) : Result (list Q) :=
  if (num <? 0)%Z then Raise ValueError
  else
    let div := (num - 1)%Z in
    let delta := stop - start in
    let step := delta / inject_Z div in
    let ys := map (fun i : nat =>
                     if (0 <? div)%Z then inject_Z (Z.of_nat i) * step + start
                     else inject_Z (Z.of_nat i) * delta + start)
                  (seq 0 (Z.to_nat num)) in
    Ok (if (1 <? num)%Z then removelast ys ++ [stop] else ys).

(** ** PLine *)

Module PLine.

(** The attributes of a point.  The coordinates are [np.float64] values, as
    they are for the centres [grid] takes from [np.linspace]; [xinc], [yinc]
    start as integers and become floats with the first noise sample. *)
Record t : Type := mk {
  x : Q; y : Q;
  xi : Q; yi : Q;
  xo : Q; yo : Q;
  xinc : Q; yinc : Q;
  z : Z
}.

Definition set_x (v : Q) (p : t) : t :=
  mk v (y p) (xi p) (yi p) (xo p) (yo p) (xinc p) (yinc p) (z p).
Definition set_y (v : Q) (p : t) : t :=
  mk (x p) v (xi p) (yi p) (xo p) (yo p) (xinc p) (yinc p) (z p).
Definition set_xi (v : Q) (p : t) : t :=
  mk (x p) (y p) v (yi p) (xo p) (yo p) (xinc p) (yinc p) (z p).
Definition set_yi (v : Q) (p : t) : t :=
  mk (x p) (y p) (xi p) v (xo p) (yo p) (xinc p) (yinc p) (z p).
Definition set_xinc (v : Q) (p : t) : t :=
  mk (x p) (y p) (xi p) (yi p) (xo p) (yo p) v (yinc p) (z p).
Definition set_yinc (v : Q) (p : t) : t :=
  mk (x p) (y p) (xi p) (yi p) (xo p) (yo p) (xinc p) v (z p).

(** [__init__] *)
Definition init (center : Q * Q) : M World t :=
  let '(cx, cy) := center in
  dx <- randint (-10) 10 ;;
  dy <- randint (-10) 10 ;;
  dz <- randint (-10) 10 ;;
  ret (mk cx cy cx cy cx cy (inject_Z dx) (inject_Z dy) dz).

Definition timedelta (self : t) : M World Q :=
  now <- time_time ;;
  ret (now * 0.0001 - inject_Z (z self)).

Section Move.
Context {ext : Externals}.

Definition perlin_move (self : t) : M World t :=
  tx <- timedelta self ;;
  let px := pnoise3 (x self * 0.01) (y self * 0.01) tx in
  ty <- timedelta self ;;
  let py := pnoise3 (y self * 0.01) (x self * 0.01) ty in
  let self := set_xinc (xinc self + px) self in
  let self := set_yinc (yinc self + py) self in
  let self := set_xi (x self) self in
  let self := set_yi (y self) self in
  let self := set_x (x self + xinc self) self in
  let self := set_y (y self + yinc self) self in
  ret self.

(** [__call__] *)
Definition call (self : t) : M World t := perlin_move self.

End Move.

End PLine.

(** ** PShape *)

(** The values a caller may hand to [PShape.within] as its first argument. *)
Inductive pyobj : Type :=
| ObjFloat64 (v : Q)
| ObjPLine (p : PLine.t)
| ObjFloat (v : Q)
| ObjInt (n : Z)
| ObjStr (s : string)
| ObjNone.

Module PShape.

Record t : Type := mk {
  plines : list PLine.t;
  xbounds : Q * Q;
  ybounds : Q * Q;
  shape : string
}.

(** [__init__] *)
Definition init (center xbounds ybounds : Q * Q) (lines : Z) (shape : string)
  : M World t :=
  pls <- comprehension (Z.to_nat lines)
           (PLine.init (fst center, snd center)) ;;
  ret (mk pls xbounds ybounds shape).

Definition within_msg : string :=
  "Within only supports np.float64 or Pline Object".

(** The undecorated [within(self)], reached for an unregistered argument
    type: it declares no parameter besides [self], so a call that passes
    [extra] further positional arguments fails before its body runs. *)
Definition within_base (extra : nat) : Result bool :=
  match extra with
  | O => Raise (NotImplementedError within_msg)
  | _ => Raise TypeError
  end.

(** The overload registered for [np.float64]. *)
Definition within_position (position : Q) (bounds : Q * Q) : bool :=
  let within_bool := false in
  if Qle_bool (fst bounds) position && Qle_bool position (snd bounds)
  then true else within_bool.

(** The overload registered for [PLine]. *)
Definition within_pline (self : t) (pline : PLine.t) : bool :=
  let within_bool := false in
  if String.eqb (shape self) "rectangle" then
    if Qle_bool (fst (xbounds self)) (PLine.xi pline)
       && Qle_bool (PLine.xi pline) (snd (xbounds self)) then
      if Qle_bool (fst (ybounds self)) (PLine.yi pline)
         && Qle_bool (PLine.yi pline) (snd (ybounds self)) then
        true
      else within_bool
    else within_bool
  else if String.eqb (shape self) "circle" then
    if np_le
         (np_add
            (np_divide ((PLine.xi pline - PLine.xo pline) ^ 2)
                       ((snd (xbounds self) - fst (xbounds self)) ^ 2))
            (np_divide ((PLine.yi pline - PLine.yo pline) ^ 2)
                       ((snd (ybounds self) - fst (ybounds self)) ^ 2)))
         1
    then true else within_bool
  else within_bool.

(** [self.within(arg)] and [self.within(arg, bounds)]: single dispatch on
    the class of the first positional argument. *)
Definition within (self : t) (arg : pyobj) (bounds : option (Q * Q))
  : Result bool :=
  match arg, bounds with
  | ObjFloat64 position, Some b => Ok (within_position position b)
  | ObjFloat64 _, None => Raise TypeError
  | ObjPLine pline, None => Ok (within_pline self pline)
  | ObjPLine _, Some _ => Raise TypeError
  | _, Some _ => within_base 2
  | _, None => within_base 1
  end.

(** A method runs on the group it is called on and on the globals. *)
Record state : Type := mkState {
  this : t;
  world : World
}.

Definition on_world {A : Type} (c : M World A) : M state A :=
  fun s => let '(r, w) := c (world s) in (r, mkState (this s) w).

(** [self.plines[i] = p] as the effect of mutating the [i]-th point. *)
Fixpoint update {A : Type} (l : list A) (i : nat) (v : A) : list A :=
  match l, i with
  | [], _ => []
  | _ :: rest, O => v :: rest
  | a :: rest, Datatypes.S j => a :: update rest j v
  end.

Definition store_pline (i : nat) (p : PLine.t) : M state unit :=
  modify (fun s =>
    mkState (mk (update (plines (this s)) i p)
                (xbounds (this s)) (ybounds (this s)) (shape (this s)))
            (world s)).

(** [[int(_) for _ in px]] *)
Definition ints (px : Z * Z * Z) : list Q :=
  let '(c0, c1, c2) := px in [inject_Z c0; inject_Z c1; inject_Z c2].

Section Draw.
Context {ext : Externals}.

(** [cv2.line(CANVAS, pt1, pt2, color, thickness)] *)
Definition cv2_line (a b : Q * Q) (c : Z * Z * Z) (th : Z) : M state unit :=
  on_world (modify (fun w =>
    let seg := mkSegment a b c th in
    set_CANVAS
      (mkCanvas (shape0 (CANVAS w)) (shape1 (CANVAS w))
                (rasterize (pixels (CANVAS w)) seg)
                (seg :: segments (CANVAS w)))
      w)).

Definition perlin_move (pline : PLine.t) : M state unit :=
  s <- get ;;
  let self := this s in
  let canvas := CANVAS (world s) in
  inx <- lift (within self (ObjFloat64 (PLine.xi pline))
                 (Some (0, inject_Z (shape0 canvas)))) ;;
  iny <- (if inx
          then lift (within self (ObjFloat64 (PLine.yi pline))
                       (Some (0, inject_Z (shape1 canvas))))
          else ret false) ;;
  if iny then
    inside <- lift (within self (ObjPLine pline) None) ;;
    if inside then
      px <- lift (canvas_getitem canvas (py_int (PLine.yi pline))
                                 (py_int (PLine.xi pline))) ;;
      c <- lift (rgba2rgb [255; 255; 255; 0.2] (ints px) None) ;;
      cv2_line (PLine.xi pline, PLine.yi pline)
               (PLine.x pline, PLine.y pline) c 1
    else ret tt
  else ret tt.

(** One pass of the loop of [__call__] over the point at index [i]. *)
Definition call_body (i : nat) : M state unit :=
  s <- get ;;
  match nth_error (plines (this s)) i with
  | Some pline =>
      perlin_move pline ;;;
      moved <- on_world (PLine.call pline) ;;
      store_pline i moved
  | None => lift (Raise IndexError)
  end.

(** [__call__] *)
Definition call : M state unit :=
  s <- get ;;
  for_each (seq 0 (List.length (plines (this s)))) call_body.

End Draw.

End PShape.

(** ** grid *)

(** [str(v)] of an optional integer, as an f-string formats it. *)
Definition py_str (v : option Z) : string :=
  match v with
  | Some n => NilZero.string_of_int (Z.to_int n)
  | None => "None"
  end.

Definition grid_msg (rows columns : option Z) : string :=
  "Rows and Columns must be defined if not using n.  Rows: "
  ++ py_str rows ++ " Columns " ++ py_str columns.

Definition truthy (v : option Z) : bool :=
  match v with
  | Some n => truthyZ n
  | None => false
  end.

(** [0+margin] and [extent-margin] with a [margin] that may be [None]. *)
Definition margin_span (margin : option Q) (extent : Z) : Result (Q * Q) :=
  match margin with
  | Some m => Ok (0 + m, inject_Z extent - m)
  | None => Raise TypeError
  end.

(** [np.linspace(0+margin, extent-margin, num)] *)
Definition axis (margin : option Q) (extent : Z) (num : option Z)
  : Result (list Q) :=
  bindR (margin_span margin extent) (fun span =>
  match num with
  | Some k => linspace (fst span) (snd span) k
  | None => Raise TypeError
  end).

(** [for x in xs: acc = body(acc, x)] *)
Fixpoint for_fold {S A B : Type} (xs : list A) (acc : B)
  (body : B -> A -> M S B) : M S B :=
  match xs with
  | [] => ret acc
  | x :: rest => acc' <- body acc x ;; for_fold rest acc' body
  end.

(** The [if n: ... else: assert ...] head of [grid]: the coordinates of the
    centres along each axis. *)
Definition grid_spaces (n rows columns : option Z) (margin : option Q)
  (canvas : Canvas) : Result (list Q * list Q) :=
  if truthy n then
    bindR (axis margin (shape0 canvas) n) (fun xspace =>
    bindR (axis margin (shape1 canvas) n) (fun yspace =>
    Ok (xspace, yspace)))
  else
    bindR (py_assert (truthy rows && truthy columns)
                     (grid_msg rows columns)) (fun _ =>
    bindR (axis margin (shape0 canvas) columns) (fun xspace =>
    bindR (axis margin (shape1 canvas) rows) (fun yspace =>
    Ok (xspace, yspace)))).

Definition grid (n rows columns : option Z) (margin : option Q)
  (xbounds ybounds : Q) (shape : string) : M World (list PShape.t) :=
  w <- get ;;
  spaces <- lift (grid_spaces n rows columns margin (CANVAS w)) ;;
  let '(xspace, yspace) := spaces in
  for_fold xspace [] (fun g x =>
    for_fold yspace g (fun g y =>
      lines <- randint 20 80 ;;
      sh <- PShape.init (x, y) (x - xbounds, x + xbounds)
              (y - ybounds, y + ybounds) lines shape ;;
      ret (g ++ [sh]))).

(** ** Vocabulary of the statements *)

(** The group [grid] builds around the centre [(cx, cy)] with half-extents
    [hx], [hy]: [PShape((x, y), (x-xbounds, x+xbounds), (y-ybounds, y+ybounds), ...)]
    once its points [pls] exist. *)
Definition grid_cell (cx cy hx hy : Q) (shape : string) (pls : list PLine.t)
  : PShape.t :=
  PShape.mk pls (cx - hx, cx + hx) (cy - hy, cy + hy) shape.

(** A point as [PLine((cx, cy))] leaves it, for given random draws. *)
Definition fresh_pline (cx cy : Q) (dx dy dz : Z) : PLine.t :=
  PLine.mk cx cy cx cy cx cy (inject_Z dx) (inject_Z dy) dz.

Definition anchor (p : PLine.t) : Q * Q := (PLine.xo p, PLine.yo p).

(** [n] successive calls of a method that mutates its receiver. *)
Fixpoint repeatM {S A : Type} (n : nat) (f : A -> M S A) (a : A) : M S A :=
  match n with
  | O => ret a
  | Datatypes.S k => a' <- f a ;; repeatM k f a'
  end.

(** [n] successive ticks of a group; a tick that raises ends the run. *)
Fixpoint ticks {ext : Externals} (n : nat) : M PShape.state unit :=
  match n with
  | O => ret tt
  | Datatypes.S k => PShape.call ;;; ticks k
  end.

(** A world whose clock has been read [k] more times. *)
Definition after_reads (k : nat) (w : World) : World :=
  mkWorld (CANVAS w) (np_random w) (np_draws w) (wall_clock w)
          (k + clock_reads w).

(** The time input of a point at the [k]-th next reading of the clock. *)
Definition time_input (p : PLine.t) (w : World) (k : nat) : Q :=
  wall_clock w (k + clock_reads w) * 0.0001 - inject_Z (PLine.z p).

(** A quiet set of collaborators, used to run the model on examples. *)
Definition still : Externals :=
  {| pnoise3 := fun _ _ _ => 0; rasterize := fun px _ => px |}.

Definition world0 : World :=
  mkWorld CANVAS0 (fun _ => 0%Z) O (fun _ => 0) O.


(** The classes [within] has an overload registered for. *)
Definition registered (arg : pyobj) : bool :=
  match arg with
  | ObjFloat64 _ | ObjPLine _ => true
  | _ => false
  end.

(** The shape tags the [PLine] overload of [within] has a branch for. *)
Definition supported_shape (s : string) : bool :=
  String.eqb s "rectangle" || String.eqb s "circle".

(** The previous position passes the canvas-bounds check on both axes. *)
Definition in_canvas (c : Canvas) (p : PLine.t) : bool :=
  PShape.within_position (PLine.xi p) (0, inject_Z (shape0 c))
  && PShape.within_position (PLine.yi p) (0, inject_Z (shape1 c)).

(** The previous position passes the canvas check and the region check. *)
Definition draw_gate (self : PShape.t) (c : Canvas) (p : PLine.t) : bool :=
  in_canvas c p && PShape.within_pline self p.

(** Translucent white over the pixel [px]. *)
Definition trail_color (px : Z * Z * Z) : Z * Z * Z :=
  let '(c0, c1, c2) := px in
  (py_int ((1 - 0.2) * inject_Z c0 + 0.2 * 255),
   py_int ((1 - 0.2) * inject_Z c1 + 0.2 * 255),
   py_int ((1 - 0.2) * inject_Z c2 + 0.2 * 255)).

(** The draw instruction for the last move of [p]. *)
Definition trail (p : PLine.t) (px : Z * Z * Z) : Segment :=
  mkSegment (PLine.xi p, PLine.yi p) (PLine.x p, PLine.y p) (trail_color px) 1.

(** The world once [seg] has been drawn. *)
Definition drawn {ext : Externals} (seg : Segment) (w : World) : World :=
  set_CANVAS
    (mkCanvas (shape0 (CANVAS w)) (shape1 (CANVAS w))
              (rasterize (pixels (CANVAS w)) seg)
              (seg :: segments (CANVAS w)))
    w.

(** Everything of a world but its canvas. *)
Definition sources (w : World) : (nat -> Z) * nat * (nat -> Q) * nat :=
  (np_random w, np_draws w, wall_clock w, clock_reads w).

(** The point [p] after one advance in the world [w]. *)
Definition advanced {ext : Externals} (p : PLine.t) (w : World) : PLine.t :=
  let px := pnoise3 (PLine.x p * 0.01) (PLine.y p * 0.01) (time_input p w 0) in
  let py := pnoise3 (PLine.y p * 0.01) (PLine.x p * 0.01) (time_input p w 1) in
  PLine.mk (PLine.x p + (PLine.xinc p + px)) (PLine.y p + (PLine.yinc p + py))
           (PLine.x p) (PLine.y p) (PLine.xo p) (PLine.yo p)
           (PLine.xinc p + px) (PLine.yinc p + py) (PLine.z p).

(** The state once the [i]-th point of the group has become [p]. *)
Definition with_pline (i : nat) (p : PLine.t) (s : PShape.state)
  : PShape.state :=
  PShape.mkState
    (PShape.mk (PShape.update (PShape.plines (PShape.this s)) i p)
               (PShape.xbounds (PShape.this s)) (PShape.ybounds (PShape.this s))
               (PShape.shape (PShape.this s)))
    (PShape.world s).

(** A point fresh from [PLine((cx, cy))]: at rest on the centre, with its
    increments and its noise offset drawn from [[-10, 10)]. *)
Definition starts_at (cx cy : Q) (p : PLine.t) : Prop :=
  exists dx dy dz : Z,
    p = fresh_pline cx cy dx dy dz /\
    (-10 <= dx < 10)%Z /\ (-10 <= dy < 10)%Z /\ (-10 <= dz < 10)%Z.

(** A group as [grid] builds it around the centre [c]: its region spans the
    half-extents on either side of [c], and it owns between 20 and 79 fresh
    points that all start at [c]. *)
Definition built (hx hy : Q) (shape : string) (c : Q * Q) (sh : PShape.t)
  : Prop :=
  PShape.xbounds sh = (fst c - hx, fst c + hx) /\
  PShape.ybounds sh = (snd c - hy, snd c + hy) /\
  PShape.shape sh = shape /\
  (20 <= List.length (PShape.plines sh) < 80)%nat /\
  Forall (starts_at (fst c) (snd c)) (PShape.plines sh).

(** A count that is either left out or a positive integer. *)
Definition positive_if_given (v : option Z) : Prop :=
  match v with
  | Some k => (0 < k)%Z
  | None => True
  end.

(** A world around a canvas of 1000 x 1000 pixels. *)
Definition world_1000 (px : Pixels) (segs : list Segment) (rnd : nat -> Z)
  (draws : nat) (clock : nat -> Q) (reads : nat) : World :=
  mkWorld (mkCanvas 1000 1000 px segs) rnd draws clock reads.

(** Neither a grid size nor both a row and a column count is given. *)
Definition no_size (n rows columns : option Z) : Prop :=
  n = None /\ (rows = None \/ columns = None).

(** ** Further vocabulary *)


(** The range [noise.pnoise3] documents for its samples. *)
Definition bounded_noise (ext : Externals) : Prop :=
  forall a b t : Q, -1 <= pnoise3 a b t <= 1.

(** [n] as a rational. *)
Definition QofN (n : nat) : Q := inject_Z (Z.of_nat n).



(** The region and the number of points of a group. *)
Definition setup (sh : PShape.t) : nat * (Q * Q) * (Q * Q) * string :=
  (List.length (PShape.plines sh), PShape.xbounds sh, PShape.ybounds sh,
   PShape.shape sh).

(** A segment that starts inside the canvas and, for a rectangle group,
    inside the rectangle. *)
Definition starts_inside (sh : PShape.t) (c : Canvas) (seg : Segment) : Prop :=
  (0 <= fst (pt1 seg) <= inject_Z (shape0 c) /\
   0 <= snd (pt1 seg) <= inject_Z (shape1 c)) /\
  (PShape.shape sh = "rectangle"%string ->
   fst (PShape.xbounds sh) <= fst (pt1 seg) <= snd (PShape.xbounds sh) /\
   fst (PShape.ybounds sh) <= snd (pt1 seg) <= snd (PShape.ybounds sh)).

(** What a run of ticks that started in [s0] keeps, and what it has drawn
    after at most [k] passes over a point. *)
Definition tick_inv (s0 : PShape.state) (k : nat) (s : PShape.state) : Prop :=
  setup (PShape.this s) = setup (PShape.this s0) /\
  np_random (PShape.world s) = np_random (PShape.world s0) /\
  np_draws (PShape.world s) = np_draws (PShape.world s0) /\
  wall_clock (PShape.world s) = wall_clock (PShape.world s0) /\
  shape0 (CANVAS (PShape.world s)) = shape0 (CANVAS (PShape.world s0)) /\
  shape1 (CANVAS (PShape.world s)) = shape1 (CANVAS (PShape.world s0)) /\
  exists new,
    segments (CANVAS (PShape.world s))
    = new ++ segments (CANVAS (PShape.world s0)) /\
    Forall (starts_inside (PShape.this s0) (CANVAS (PShape.world s0))) new /\
    (List.length new <= k)%nat.

(** A group whose points are anchored at least [m] away from every edge of
    the canvas [c], and whose region reaches at most the half-extents
    further out. *)
Definition within_margins (m hx hy : Q) (c : Canvas) (sh : PShape.t) : Prop :=
  Forall (fun p =>
            m <= PLine.xo p <= inject_Z (shape0 c) - m /\
            m <= PLine.yo p <= inject_Z (shape1 c) - m) (PShape.plines sh) /\
  m - hx <= fst (PShape.xbounds sh) /\
  snd (PShape.xbounds sh) <= inject_Z (shape0 c) - m + hx /\
  m - hy <= fst (PShape.ybounds sh) /\
  snd (PShape.ybounds sh) <= inject_Z (shape1 c) - m + hy.

(** ** The script: setting up, the frame loop, shutting down *)

(** The display collaborator of the loop. *)
Class Display : Type := {
  (** [cv2.addWeighted(src1, alpha, src2, beta, gamma)] on pixel buffers *)
  addWeighted : Pixels -> Q -> Pixels -> Q -> Q -> Pixels
}.

(** The state the script runs on: the module globals ([psquares], and those
    of [World]), the keyboard as the successive results of [cv2.waitKey], the
    frames handed to [cv2.imshow] and to [out.write] (the latest first), and
    what has been done to the video writer and to the windows.
    [writer] holds the file name, the four-character code, the frame rate
    and the frame size [out] was opened with. *)
Record Session : Type := mkSession {
  psquares : list PShape.t;
  globals : World;
  keyboard : nat -> Z;
  key_reads : nat;
  shown : list Pixels;
  writer : option (string * string * Z * (Z * Z));
  written : list Pixels;
  released : bool;
  windows_destroyed : bool
}.

Definition set_psquares (l : list PShape.t) (ss : Session) : Session :=
  mkSession l (globals ss) (keyboard ss) (key_reads ss) (shown ss)
            (writer ss) (written ss) (released ss) (windows_destroyed ss).

Definition set_globals (w : World) (ss : Session) : Session :=
  mkSession (psquares ss) w (keyboard ss) (key_reads ss) (shown ss)
            (writer ss) (written ss) (released ss) (windows_destroyed ss).

Definition on_globals {A : Type} (c : M World A) : M Session A :=
  fun ss => let '(r, w) := c (globals ss) in (r, set_globals w ss).

(** [out = cv2.VideoWriter(filename, fourcc, fps, size)] *)
Definition VideoWriter (filename fourcc : string) (fps : Z) (size : Z * Z)
  : M Session unit :=
  modify (fun ss =>
    mkSession (psquares ss) (globals ss) (keyboard ss) (key_reads ss)
              (shown ss) (Some (filename, fourcc, fps, size)) (written ss)
              (released ss) (windows_destroyed ss)).

(** [cv2.imshow("Canvas", CANVAS)] *)
Definition imshow : M Session unit :=
  modify (fun ss =>
    mkSession (psquares ss) (globals ss) (keyboard ss) (key_reads ss)
              (pixels (CANVAS (globals ss)) :: shown ss)
              (writer ss) (written ss) (released ss) (windows_destroyed ss)).

(** [out.write(CANVAS)] *)
Definition out_write : M Session unit :=
  modify (fun ss =>
    mkSession (psquares ss) (globals ss) (keyboard ss) (key_reads ss)
              (shown ss) (writer ss)
              (pixels (CANVAS (globals ss)) :: written ss)
              (released ss) (windows_destroyed ss)).

(** [out.release()] *)
Definition out_release : M Session unit :=
  modify (fun ss =>
    mkSession (psquares ss) (globals ss) (keyboard ss) (key_reads ss)
              (shown ss) (writer ss) (written ss) true (windows_destroyed ss)).

(** [cv2.destroyAllWindows()] *)
Definition destroyAllWindows : M Session unit :=
  modify (fun ss =>
    mkSession (psquares ss) (globals ss) (keyboard ss) (key_reads ss)
              (shown ss) (writer ss) (written ss) (released ss) true).

(** [cv2.waitKey(delay)] *)
Definition waitKey (delay : Z) : M Session Z :=
  fun ss =>
    (Ok (keyboard ss (key_reads ss)),
     mkSession (psquares ss) (globals ss) (keyboard ss)
               (Datatypes.S (key_reads ss)) (shown ss) (writer ss)
               (written ss) (released ss) (windows_destroyed ss)).

(** [key & 0xFF == ord('q')] *)
Definition is_quit (key : Z) : bool := Z.eqb (Z.land key 255) 113.

Section Script.
Context {ext : Externals} {disp : Display}.

(** [psquare()] for the group at index [k] of [psquares]. *)
Definition tick_group (k : nat) : M Session unit :=
  fun ss =>
    match nth_error (psquares ss) k with
    | Some sh =>
        let '(r, st) := PShape.call (PShape.mkState sh (globals ss)) in
        (r, set_globals (PShape.world st)
              (set_psquares (PShape.update (psquares ss) k (PShape.this st))
                            ss))
    | None => (Raise IndexError, ss)
    end.

(** [CANVAS = cv2.addWeighted(CANVAS, 0.5, _CANVAS, 0.5, 0)] *)
Definition fade (before : Pixels) : M Session unit :=
  on_globals (modify (fun w =>
    set_CANVAS
      (mkCanvas (shape0 (CANVAS w)) (shape1 (CANVAS w))
                (addWeighted (pixels (CANVAS w)) 0.5 before 0.5 0)
                (segments (CANVAS w)))
      w)).

(** One pass of [while True:]; the result tells whether it ended in [break]. *)
Definition frame (capture : bool) (delay : Z) : M Session bool :=
  ss <- get ;;
  let _CANVAS := pixels (CANVAS (globals ss)) in
  for_each (seq 0 (List.length (psquares ss))) tick_group ;;;
  fade _CANVAS ;;;
  imshow ;;;
  (if capture then out_write else ret tt) ;;;
  key <- waitKey delay ;;
  ret (is_quit key).

(** At most [fuel] passes of the loop; [false] when it is still running. *)
Fixpoint main_loop (capture : bool) (delay : Z) (fuel : nat) : M Session bool :=
  match fuel with
  | O => ret false
  | Datatypes.S rest =>
      stop <- frame capture delay ;;
      if stop then ret true else main_loop capture delay rest
  end.

(** The script from [psquares = grid(n=3, margin=200)] on; [false] when the
    loop is still running after [fuel] passes. *)
Definition script (capture : bool) (delay : Z) (fuel : nat) : M Session bool :=
  groups <- on_globals
              (grid (Some 3%Z) None None (Some 200) 100 100 "rectangle") ;;
  modify (set_psquares groups) ;;;
  (if capture then VideoWriter "output.avi" "DIVX" delay (1000, 1000)%Z
   else ret tt) ;;;
  stopped <- main_loop capture delay fuel ;;
  if stopped then
    (if capture then out_release else ret tt) ;;;
    destroyAllWindows ;;;
    ret true
  else ret false.

End Script.

(** The script as configured: [delay = 10], [capture = True]. *)
Definition delay : Z := 10.
Definition capture : bool := true.

(** The first [m] keys from the next reading on do not quit, the one after
    them does. *)
Definition quits_after (m : nat) (ss : Session) : Prop :=
  (forall j, (j < m)%nat -> is_quit (keyboard ss (j + key_reads ss)) = false) /\
  is_quit (keyboard ss (m + key_reads ss)) = true.

(** A session before anything was shown, recorded or shut down. *)
Definition fresh_session (ss : Session) : Prop :=
  shown ss = [] /\ written ss = [] /\ released ss = false /\
  windows_destroyed ss = false.

Definition session0 (keys : nat -> Z) : Session :=
  mkSession [] world0 keys O [] None [] false false.

(** Everything of a session but its groups and the globals. *)
Definition display (ss : Session) :=
  (keyboard ss, key_reads ss, shown ss, writer ss, written ss, released ss,
   windows_destroyed ss).

(** A display that fades nothing, used to run the script on examples. *)
Definition plain : Display := {| addWeighted := fun a _ _ _ _ => a |}.
(** ** PLine.perlin_move *)

(** C3: one advance samples the noise twice, at (x*0.01, y*0.01, t) and, axes
    swapped, at (y*0.01, x*0.01, t), t being the point's time input at each
    sample; it adds the samples to the stored increments, records the current
    position as the previous one and adds the updated increments to the
    position, with no clamping; nothing but the clock changes besides. *)
Theorem advance_post_state (ext : Externals) (p : PLine.t) (w : World) :
  let px := pnoise3 (PLine.x p * 0.01) (PLine.y p * 0.01) (time_input p w 0) in
  let py := pnoise3 (PLine.y p * 0.01) (PLine.x p * 0.01) (time_input p w 1) in
  PLine.perlin_move p w =
    (Ok {| PLine.x := PLine.x p + (PLine.xinc p + px);
           PLine.y := PLine.y p + (PLine.yinc p + py);
           PLine.xi := PLine.x p;
           PLine.yi := PLine.y p;
           PLine.xo := PLine.xo p;
           PLine.yo := PLine.yo p;
           PLine.xinc := PLine.xinc p + px;
           PLine.yinc := PLine.yinc p + py;
           PLine.z := PLine.z p |},
     after_reads 2 w).
Proof.
  unfold PLine.perlin_move, PLine.timedelta, time_time, bind, ret.
  unfold time_input, after_reads. cbn.
  reflexivity.
Qed.

(** ** PShape.within *)

Lemma between_iff (v lo hi : Q) :
  Qle_bool lo v && Qle_bool v hi = true <-> lo <= v <= hi.
Proof.
  rewrite andb_true_iff, !Qle_bool_iff. tauto.
Qed.

Lemma within_position_iff (position : Q) (bounds : Q * Q) :
  PShape.within_position position bounds = true <->
  fst bounds <= position <= snd bounds.
Proof.
  unfold PShape.within_position. rewrite <- between_iff.
  destruct (Qle_bool (fst bounds) position && Qle_bool position (snd bounds));
    intuition congruence.
Qed.

Lemma within_rectangle_iff (self : PShape.t) (p : PLine.t) :
  PShape.shape self = "rectangle"%string ->
  PShape.within_pline self p = true <->
  fst (PShape.xbounds self) <= PLine.xi p <= snd (PShape.xbounds self) /\
  fst (PShape.ybounds self) <= PLine.yi p <= snd (PShape.ybounds self).
Proof.
  intros Hs. unfold PShape.within_pline. rewrite Hs. cbn [String.eqb].
  replace (("rectangle" =? "rectangle")%string) with true by reflexivity.
  rewrite <- !between_iff.
  destruct (Qle_bool (fst (PShape.xbounds self)) (PLine.xi p)
            && Qle_bool (PLine.xi p) (snd (PShape.xbounds self)));
  destruct (Qle_bool (fst (PShape.ybounds self)) (PLine.yi p)
            && Qle_bool (PLine.yi p) (snd (PShape.ybounds self)));
    intuition congruence.
Qed.

(** C5: for a rectangle group around (cx, cy) with half-extents hx, hy the
    containment check of a point returns a boolean, and it is true exactly
    when the previous position lies in [cx-hx, cx+hx] on the x axis and in
    [cy-hy, cy+hy] on the y axis, both ends included. *)
Theorem rectangle_within_inclusive (cx cy hx hy : Q) (pls : list PLine.t)
  (p : PLine.t) :
  exists b : bool,
    PShape.within (grid_cell cx cy hx hy "rectangle" pls) (ObjPLine p) None
      = Ok b /\
    (b = true <->
     cx - hx <= PLine.xi p <= cx + hx /\ cy - hy <= PLine.yi p <= cy + hy).
Proof.
  eexists. split; [reflexivity |].
  apply (within_rectangle_iff (grid_cell cx cy hx hy "rectangle" pls) p).
  reflexivity.
Qed.

(** With non-negative half-extents the edges of the rectangle belong to it. *)
Lemma rectangle_edges_contained (cx cy hx hy : Q) (pls : list PLine.t)
  (p : PLine.t) :
  0 <= hx -> 0 <= hy ->
  (PLine.xi p == cx - hx \/ PLine.xi p == cx + hx) ->
  (PLine.yi p == cy - hy \/ PLine.yi p == cy + hy) ->
  PShape.within_pline (grid_cell cx cy hx hy "rectangle" pls) p = true.
Proof.
  intros Hx Hy Ex Ey.
  apply within_rectangle_iff; [reflexivity |].
  cbn [grid_cell PShape.xbounds PShape.ybounds fst snd].
  assert (Lx : cx - hx <= cx + hx).
  { apply Qplus_le_r. apply Qle_trans with 0; [| exact Hx].
    apply (Qopp_le_compat 0 hx) in Hx. exact Hx. }
  assert (Ly : cy - hy <= cy + hy).
  { apply Qplus_le_r. apply Qle_trans with 0; [| exact Hy].
    apply (Qopp_le_compat 0 hy) in Hy. exact Hy. }
  destruct Ex as [-> | ->]; destruct Ey as [-> | ->];
    repeat split; auto using Qle_refl.
Qed.

Lemma np_divide_finite (a b : Q) :
  ~ b == 0 -> np_divide a b = Finite (a / b).
Proof.
  intros Hb. unfold np_divide.
  destruct (Qeq_bool b 0) eqn:E; [| reflexivity].
  apply Qeq_bool_iff in E. contradiction.
Qed.

Lemma full_extent (c h : Q) : (c + h) - (c - h) == 2 * h.
Proof. ring. Qed.

Lemma sq_nonzero (q : Q) : ~ q == 0 -> ~ q ^ 2 == 0.
Proof.
  intros Hq H. apply Hq. simpl in H.
  destruct (Qmult_integral _ _ H); assumption.
Qed.

Lemma sq_nonneg (q : Q) : 0 <= q ^ 2.
Proof.
  destruct q as [n d]. unfold Qle. simpl.
  rewrite Z.mul_1_r. apply Z.square_nonneg.
Qed.

(** What the circle branch computes: the ellipse around the point's anchor
    whose semi-axes are the full extents [2*hx], [2*hy] of the bounds. *)
Lemma within_circle_iff (cx cy hx hy : Q) (pls : list PLine.t) (p : PLine.t) :
  ~ hx == 0 -> ~ hy == 0 ->
  PShape.within_pline (grid_cell cx cy hx hy "circle" pls) p = true <->
  (PLine.xi p - PLine.xo p) ^ 2 / (2 * hx) ^ 2
  + (PLine.yi p - PLine.yo p) ^ 2 / (2 * hy) ^ 2 <= 1.
Proof.
  intros Hx Hy. unfold PShape.within_pline, grid_cell.
  cbn [PShape.shape PShape.xbounds PShape.ybounds fst snd].
  replace (("circle" =? "rectangle")%string) with false by reflexivity.
  replace (("circle" =? "circle")%string) with true by reflexivity.
  assert (Ex : ~ (cx + hx - (cx - hx)) ^ 2 == 0).
  { apply sq_nonzero. rewrite full_extent. intros H.
    destruct (Qmult_integral _ _ H) as [H2 | H2]; [discriminate | auto]. }
  assert (Ey : ~ (cy + hy - (cy - hy)) ^ 2 == 0).
  { apply sq_nonzero. rewrite full_extent. intros H.
    destruct (Qmult_integral _ _ H) as [H2 | H2]; [discriminate | auto]. }
  rewrite (np_divide_finite _ _ Ex), (np_divide_finite _ _ Ey).
  cbn [np_add np_le].
  rewrite <- (full_extent cx hx), <- (full_extent cy hy), <- Qle_bool_iff.
  match goal with |- (if ?c then _ else _) = _ <-> _ =>
    destruct c; intuition congruence end.
Qed.

(** A zero extent makes the circle branch reject every point. *)
Lemma within_circle_degenerate (cx cy hy : Q) (pls : list PLine.t) (p : PLine.t) :
  PShape.within_pline (grid_cell cx cy 0 hy "circle" pls) p = false.
Proof.
  unfold PShape.within_pline, grid_cell.
  cbn [PShape.shape PShape.xbounds PShape.ybounds fst snd].
  replace (("circle" =? "rectangle")%string) with false by reflexivity.
  replace (("circle" =? "circle")%string) with true by reflexivity.
  assert (E0 : Qeq_bool ((cx + 0 - (cx - 0)) ^ 2) 0 = true).
  { apply Qeq_bool_iff. simpl. ring. }
  unfold np_divide at 1. rewrite E0.
  pose proof (sq_nonneg (PLine.xi p - PLine.xo p)) as Hn.
  destruct ((PLine.xi p - PLine.xo p) ^ 2 ?= 0) eqn:C.
  - destruct (np_divide _ _); reflexivity.
  - apply Qlt_alt in C. exfalso. apply (Qlt_not_le _ _ C Hn).
  - destruct (np_divide _ _); reflexivity.
Qed.

(** C1: a circle group around (500, 500) with half-extents 100 contains a
    point anchored at the centre whose previous position is 150 to the right
    of it, although the normalized squared distance of that position, taken
    with the half-extents as semi-axes, is 2.25 and not at most 1: the
    divisors in the code are the squared full extents. *)
Theorem circle_within_divides_by_full_extent :
  let self := grid_cell 500 500 100 100 "circle" [] in
  let p := PLine.mk 650 500 650 500 500 500 0 0 0 in
  PShape.within self (ObjPLine p) None = Ok true /\
  ~ (PLine.xi p - PLine.xo p) ^ 2 / 100 ^ 2
    + (PLine.yi p - PLine.yo p) ^ 2 / 100 ^ 2 <= 1.
Proof.
  split.
  - vm_compute. reflexivity.
  - apply Qlt_not_le. vm_compute. reflexivity.
Qed.

Lemma within_unregistered (self : PShape.t) (arg : pyobj)
  (bounds : option (Q * Q)) :
  registered arg = false -> PShape.within self arg bounds = Raise TypeError.
Proof.
  destruct arg, bounds; simpl; intros H; try discriminate; reflexivity.
Qed.

Lemma within_other_shape (self : PShape.t) (p : PLine.t) :
  supported_shape (PShape.shape self) = false ->
  PShape.within_pline self p = false.
Proof.
  unfold supported_shape, PShape.within_pline. intros H.
  apply orb_false_iff in H. destruct H as [Hr Hc].
  rewrite Hr, Hc. reflexivity.
Qed.

(** C4, as the code has it: a first argument of a class without a registered
    overload makes the containment check raise (a TypeError) and return no
    boolean, with or without bounds; a shape tag that is neither rectangle
    nor circle raises nothing: the check on a point returns false. *)
Theorem within_unsupported (self : PShape.t) (arg : pyobj)
  (bounds : option (Q * Q)) (p : PLine.t) :
  (registered arg = false ->
   PShape.within self arg bounds = Raise TypeError /\
   ~ returns (PShape.within self arg bounds)) /\
  (supported_shape (PShape.shape self) = false ->
   PShape.within self (ObjPLine p) None = Ok false).
Proof.
  split.
  - intros H. rewrite (within_unregistered self arg bounds H).
    split; [reflexivity |]. intros [b Hb]. discriminate.
  - intros H. simpl. rewrite (within_other_shape self p H). reflexivity.
Qed.

Lemma within_unsupported_witness :
  PShape.within (grid_cell 500 500 100 100 "triangle" []) (ObjInt 5)
    (Some (0, 1000)) = Raise TypeError /\
  PShape.within (grid_cell 500 500 100 100 "triangle" [])
    (ObjPLine (fresh_pline 500 500 1 2 3)) None = Ok false.
Proof.
  pose proof (within_unsupported (grid_cell 500 500 100 100 "triangle" [])
                (ObjInt 5) (Some (0, 1000)) (fresh_pline 500 500 1 2 3))
    as [Harg Hshape].
  split.
  - apply Harg. reflexivity.
  - apply Hshape. reflexivity.
Defined.

(** C4 as stated fails: with the unsupported shape tag "triangle" the
    containment check of a point raises nothing and returns false. *)
Lemma within_triangle_returns :
  PShape.within (grid_cell 500 500 100 100 "triangle" [])
    (ObjPLine (fresh_pline 500 500 1 2 3)) None = Ok false /\
  supported_shape "triangle" = false /\
  ~ raises (PShape.within (grid_cell 500 500 100 100 "triangle" [])
              (ObjPLine (fresh_pline 500 500 1 2 3)) None).
Proof.
  split; [reflexivity | split; [reflexivity |]].
  intros [e He]. discriminate.
Qed.

(** ** rgba2rgb *)

Lemma length_four {A : Type} (l : list A) :
  List.length l = 4%nat -> exists a b c d, l = [a; b; c; d].
Proof.
  destruct l as [| a [| b [| c [| d [| e l]]]]]; simpl; intros H;
    try discriminate.
  now exists a, b, c, d.
Qed.

Lemma at_least_three {A : Type} (l : list A) :
  (3 <= List.length l)%nat -> exists a b c rest, l = a :: b :: c :: rest.
Proof.
  destruct l as [| a [| b [| c rest]]]; simpl; intros H; try lia.
  now exists a, b, c, rest.
Qed.

Lemma alpha_of_color_assert (color : list Q) :
  alpha_of_color color = Raise (AssertionError rgba_msg) <->
  List.length color <> 4%nat.
Proof.
  unfold alpha_of_color, py_assert.
  destruct (Nat.eqb_spec (List.length color) 4) as [E | E]; simpl.
  - destruct (length_four color E) as (a & b & c & d & ->). simpl.
    split; [discriminate | congruence].
  - tauto.
Qed.

Lemma rgba2rgb_given_alpha (a : Q) (color background : list Q) :
  (3 <= List.length background)%nat -> (3 <= List.length color)%nat ->
  forall pick : Result Q, pick = Ok a ->
  returns (bindR pick (fun a =>
           bindR (blend a background color 0) (fun r =>
           bindR (blend a background color 1) (fun g =>
           bindR (blend a background color 2) (fun b =>
           Ok (r, g, b)))))).
Proof.
  intros Hb Hc pick ->.
  destruct (at_least_three background Hb) as (b0 & b1 & b2 & rb & ->).
  destruct (at_least_three color Hc) as (c0 & c1 & c2 & rc & ->).
  simpl. eexists. reflexivity.
Qed.

(** C9, as the code has it: without an alpha argument the conversion fails
    with its message exactly when the colour does not have exactly four
    channels; with a four-channel colour and no alpha, or with a non-zero
    alpha and a colour of at least three channels, it returns an RGB triple
    (the background having its three channels). *)
Theorem rgba2rgb_failure (color background : list Q) :
  (rgba2rgb color background None = Raise (AssertionError rgba_msg) <->
   List.length color <> 4%nat) /\
  ((3 <= List.length background)%nat -> List.length color = 4%nat ->
   returns (rgba2rgb color background None)) /\
  (forall a : Q, ~ a == 0 ->
   (3 <= List.length background)%nat -> (3 <= List.length color)%nat ->
   returns (rgba2rgb color background (Some a))).
Proof.
  split; [| split].
  - unfold rgba2rgb. rewrite <- alpha_of_color_assert.
    destruct (alpha_of_color color) as [a | e] eqn:E; simpl.
    + split; [| intros H; discriminate H].
      clear E. unfold blend, item.
      destruct background as [| b0 [| b1 [| b2 rb]]];
        destruct color as [| c0 [| c1 [| c2 rc]]];
        simpl; intros H; discriminate H.
    + split; intros H; injection H as ->; reflexivity.
  - intros Hb Hc. unfold rgba2rgb.
    destruct (length_four color Hc) as (c0 & c1 & c2 & c3 & ->).
    apply (rgba2rgb_given_alpha c3); [assumption | simpl; lia | reflexivity].
  - intros a Ha Hb Hc. unfold rgba2rgb.
    apply (rgba2rgb_given_alpha a); [assumption | assumption |].
    unfold truthyQ. destruct (Qeq_bool a 0) eqn:E; [| reflexivity].
    apply Qeq_bool_iff in E. contradiction.
Qed.

Lemma rgba2rgb_failure_witness :
  rgba2rgb [255; 255; 255; 0.2] [0; 0; 0] None = Ok (51, 51, 51)%Z /\
  returns (rgba2rgb [255; 255; 255; 0.2] [0; 0; 0] None) /\
  returns (rgba2rgb [255; 255; 255] [0; 0; 0] (Some 0.5)).
Proof.
  pose proof (rgba2rgb_failure [255; 255; 255; 0.2] [0; 0; 0])
    as (_ & Hfour & _).
  pose proof (rgba2rgb_failure [255; 255; 255] [0; 0; 0]) as (_ & _ & Halpha).
  split; [reflexivity | split].
  - apply Hfour; simpl; [lia | reflexivity].
  - apply (Halpha 0.5); simpl; [discriminate | lia | lia].
Defined.

(** C9 as stated fails: a colour of five channels is not short of channels,
    yet without an alpha argument the conversion fails on its assertion. *)
Lemma rgba2rgb_five_channels_fails :
  rgba2rgb [255; 255; 255; 1; 1] [0; 0; 0] None
    = Raise (AssertionError rgba_msg) /\
  ~ (List.length [255; 255; 255; 1; 1] < 4)%nat.
Proof.
  split; [reflexivity | simpl; lia].
Qed.

(** A two-channel colour with an alpha argument raises too, on an index. *)
Lemma rgba2rgb_two_channels_fails :
  rgba2rgb [255; 255] [0; 0; 0] (Some 0.5) = Raise IndexError.
Proof. reflexivity. Qed.

(** ** PShape.perlin_move: the draw step *)

Section DrawStep.
Context {ext : Externals}.

Lemma trail_color_ok (px : Z * Z * Z) :
  rgba2rgb [255; 255; 255; 0.2] (PShape.ints px) None = Ok (trail_color px).
Proof.
  destruct px as [[c0 c1] c2]. reflexivity.
Qed.

Lemma perlin_move_skip (pline : PLine.t) (s : PShape.state) :
  draw_gate (PShape.this s) (CANVAS (PShape.world s)) pline = false ->
  PShape.perlin_move pline s = (Ok tt, s).
Proof.
  unfold draw_gate, in_canvas, PShape.perlin_move, bind, get, lift, ret.
  cbn [PShape.within].
  destruct (PShape.within_position (PLine.xi pline) _); cbn [andb];
    [| reflexivity].
  destruct (PShape.within_position (PLine.yi pline) _); cbn [andb];
    [| reflexivity].
  intros ->. reflexivity.
Qed.

Lemma perlin_move_draw (pline : PLine.t) (s : PShape.state) (px : Z * Z * Z) :
  draw_gate (PShape.this s) (CANVAS (PShape.world s)) pline = true ->
  canvas_getitem (CANVAS (PShape.world s)) (py_int (PLine.yi pline))
    (py_int (PLine.xi pline)) = Ok px ->
  PShape.perlin_move pline s =
    (Ok tt, PShape.mkState (PShape.this s)
              (drawn (trail pline px) (PShape.world s))).
Proof.
  unfold draw_gate, in_canvas, PShape.perlin_move, bind, get, lift, ret.
  cbn [PShape.within].
  intros Hg Hpx. apply andb_true_iff in Hg. destruct Hg as [Hc Hr].
  apply andb_true_iff in Hc. destruct Hc as [Hx Hy].
  rewrite Hx, Hy, Hr, Hpx, trail_color_ok. reflexivity.
Qed.

Lemma perlin_move_crash (pline : PLine.t) (s : PShape.state) (e : exn) :
  draw_gate (PShape.this s) (CANVAS (PShape.world s)) pline = true ->
  canvas_getitem (CANVAS (PShape.world s)) (py_int (PLine.yi pline))
    (py_int (PLine.xi pline)) = Raise e ->
  PShape.perlin_move pline s = (Raise e, s).
Proof.
  unfold draw_gate, in_canvas, PShape.perlin_move, bind, get, lift, ret.
  cbn [PShape.within].
  intros Hg Hpx. apply andb_true_iff in Hg. destruct Hg as [Hc Hr].
  apply andb_true_iff in Hc. destruct Hc as [Hx Hy].
  rewrite Hx, Hy, Hr, Hpx. reflexivity.
Qed.

(** The three ways a draw step can end. *)
Lemma perlin_move_cases (pline : PLine.t) (s : PShape.state) :
  PShape.perlin_move pline s = (Ok tt, s)
  \/ (exists px, PShape.perlin_move pline s =
        (Ok tt, PShape.mkState (PShape.this s)
                  (drawn (trail pline px) (PShape.world s))))
  \/ (exists e, PShape.perlin_move pline s = (Raise e, s)).
Proof.
  destruct (draw_gate (PShape.this s) (CANVAS (PShape.world s)) pline) eqn:G.
  - destruct (canvas_getitem (CANVAS (PShape.world s))
                (py_int (PLine.yi pline)) (py_int (PLine.xi pline)))
      as [px | e] eqn:E.
    + right; left. exists px. now apply perlin_move_draw.
    + right; right. exists e. now apply perlin_move_crash.
  - left. now apply perlin_move_skip.
Qed.

Lemma perlin_move_this (pline : PLine.t) (s : PShape.state) :
  PShape.this (snd (PShape.perlin_move pline s)) = PShape.this s.
Proof.
  destruct (perlin_move_cases pline s) as [H | [[px H] | [e H]]];
    rewrite H; reflexivity.
Qed.

Lemma perlin_move_sources (pline : PLine.t) (s : PShape.state) :
  sources (PShape.world (snd (PShape.perlin_move pline s)))
  = sources (PShape.world s).
Proof.
  destruct (perlin_move_cases pline s) as [H | [[px H] | [e H]]];
    rewrite H; reflexivity.
Qed.

Lemma advance_reads_sources (p : PLine.t) (w w' : World) :
  sources w' = sources w ->
  fst (PLine.call p w') = fst (PLine.call p w).
Proof.
  unfold sources. intros H. injection H as Hr Hd Hc Hk.
  unfold PLine.call, PLine.perlin_move, PLine.timedelta, time_time, bind, ret.
  cbn. rewrite Hc, Hk. reflexivity.
Qed.

End DrawStep.

(** C10: the draw step of a group on a point leaves the group untouched, its
    points with every one of their fields, its bounds and its shape tag, and
    leaves the random generator and the clock as they were; only the canvas
    may change, so the advance that follows yields the same point whether or
    not a segment was drawn. *)
Theorem draw_step_frame (ext : Externals) (pline : PLine.t) (s : PShape.state) :
  let s' := snd (PShape.perlin_move pline s) in
  PShape.this s' = PShape.this s /\
  PShape.plines (PShape.this s') = PShape.plines (PShape.this s) /\
  PShape.xbounds (PShape.this s') = PShape.xbounds (PShape.this s) /\
  PShape.ybounds (PShape.this s') = PShape.ybounds (PShape.this s) /\
  PShape.shape (PShape.this s') = PShape.shape (PShape.this s) /\
  sources (PShape.world s') = sources (PShape.world s) /\
  fst (PLine.call pline (PShape.world s'))
  = fst (PLine.call pline (PShape.world s)).
Proof.
  intros s'. subst s'.
  pose proof (perlin_move_this pline s) as Ht.
  pose proof (perlin_move_sources pline s) as Hs.
  rewrite Ht. repeat split; auto using advance_reads_sources.
Qed.

(** ** Anchors *)

Lemma for_each_invariant {S A : Type} (I : S -> Prop) (body : A -> M S unit) :
  (forall x s, I s -> I (snd (body x s))) ->
  forall xs s, I s -> I (snd (for_each xs body s)).
Proof.
  intros Hbody xs. induction xs as [| x rest IH]; intros s Hs; simpl.
  - exact Hs.
  - unfold bind. specialize (Hbody x s Hs).
    destruct (body x s) as [[[] | e] s1]; simpl in *.
    + now apply IH.
    + exact Hbody.
Qed.

Lemma map_update_same {A B : Type} (f : A -> B) (l : list A) (i : nat)
  (old new : A) :
  nth_error l i = Some old -> f new = f old ->
  map f (PShape.update l i new) = map f l.
Proof.
  revert i. induction l as [| a l IH]; intros [| i] Hn Hf; simpl in *;
    try discriminate.
  - injection Hn as ->. now rewrite Hf.
  - now rewrite (IH i Hn Hf).
Qed.

Section Anchors.
Context {ext : Externals}.

Lemma init_anchor (center : Q * Q) (w : World) :
  exists p w', PLine.init center w = (Ok p, w') /\ anchor p = center.
Proof.
  destruct center as [cx cy]. unfold PLine.init, randint, bind, ret.
  cbn. do 2 eexists. split; reflexivity.
Qed.

Lemma call_advanced (p : PLine.t) (w : World) :
  PLine.call p w = (Ok (advanced p w), after_reads 2 w).
Proof. reflexivity. Qed.

Lemma advance_anchor (p : PLine.t) (w : World) :
  exists p' w', PLine.call p w = (Ok p', w') /\ anchor p' = anchor p.
Proof.
  exists (advanced p w), (after_reads 2 w). split; reflexivity.
Qed.

Lemma repeat_advance_anchor (n : nat) :
  forall p w, exists p' w',
    repeatM n PLine.call p w = (Ok p', w') /\ anchor p' = anchor p.
Proof.
  induction n as [| n IH]; intros p w; simpl.
  - exists p, w. split; reflexivity.
  - unfold bind.
    destruct (advance_anchor p w) as (p1 & w1 & -> & H1).
    destruct (IH p1 w1) as (p2 & w2 & -> & H2).
    exists p2, w2. split; [reflexivity | congruence].
Qed.

Lemma call_body_anchors (i : nat) (s : PShape.state) :
  map anchor (PShape.plines (PShape.this (snd (PShape.call_body i s))))
  = map anchor (PShape.plines (PShape.this s)).
Proof.
  unfold PShape.call_body, bind, get.
  destruct (nth_error (PShape.plines (PShape.this s)) i) as [pline |] eqn:E;
    [| reflexivity].
  pose proof (perlin_move_this pline s) as Ht.
  destruct (PShape.perlin_move pline s) as [[[] | e] s1]; simpl in Ht;
    [| simpl; now rewrite Ht].
  unfold PShape.on_world.
  destruct (advance_anchor pline (PShape.world s1)) as (p' & w' & -> & Ha).
  simpl. rewrite Ht. now apply map_update_same with (old := pline).
Qed.

Lemma call_anchors (s : PShape.state) :
  map anchor (PShape.plines (PShape.this (snd (PShape.call s))))
  = map anchor (PShape.plines (PShape.this s)).
Proof.
  unfold PShape.call, bind, get.
  apply (for_each_invariant
           (fun s1 => map anchor (PShape.plines (PShape.this s1))
                      = map anchor (PShape.plines (PShape.this s)))).
  - intros i s1 H1. now rewrite call_body_anchors.
  - reflexivity.
Qed.

Lemma ticks_anchors (n : nat) :
  forall s, map anchor (PShape.plines (PShape.this (snd (ticks n s))))
            = map anchor (PShape.plines (PShape.this s)).
Proof.
  induction n as [| n IH]; intros s; simpl; [reflexivity |].
  unfold bind. pose proof (call_anchors s) as Hc.
  destruct (PShape.call s) as [[[] | e] s1]; simpl in *.
  - now rewrite IH.
  - exact Hc.
Qed.

End Anchors.

(** C6: a point's anchor (xo, yo) is the centre it was constructed at, and it
    is the same after any number of advances; the draw step of the owning
    group and any number of its ticks, completed or ended by an exception,
    leave the anchors of all its points as they were. *)
Theorem anchor_never_changes (ext : Externals) :
  (forall center w, exists p w',
      PLine.init center w = (Ok p, w') /\ anchor p = center) /\
  (forall n p w, exists p' w',
      repeatM n PLine.call p w = (Ok p', w') /\
      PLine.xo p' = PLine.xo p /\ PLine.yo p' = PLine.yo p) /\
  (forall pline s,
      map anchor (PShape.plines (PShape.this (snd (PShape.perlin_move pline s))))
      = map anchor (PShape.plines (PShape.this s))) /\
  (forall n s,
      map anchor (PShape.plines (PShape.this (snd (ticks n s))))
      = map anchor (PShape.plines (PShape.this s))).
Proof.
  split; [| split; [| split]].
  - apply init_anchor.
  - intros n p w.
    destruct (repeat_advance_anchor n p w) as (p' & w' & Hrun & Ha).
    exists p', w'. unfold anchor in Ha. injection Ha as Hx Hy. auto.
  - intros pline s. now rewrite perlin_move_this.
  - intros n s. apply ticks_anchors.
Qed.

(** ** PShape.__call__: one tick *)

Section Tick.
Context {ext : Externals}.

(** Outside the canvas on either axis nothing is drawn. *)
Lemma no_draw_outside_canvas (pline : PLine.t) (s : PShape.state) :
  in_canvas (CANVAS (PShape.world s)) pline = false ->
  PShape.perlin_move pline s = (Ok tt, s).
Proof.
  intros H. apply perlin_move_skip. unfold draw_gate. now rewrite H.
Qed.

(** A point the gate rejects is advanced and nothing is drawn. *)
Lemma call_body_skip (i : nat) (s : PShape.state) (pline : PLine.t) :
  nth_error (PShape.plines (PShape.this s)) i = Some pline ->
  draw_gate (PShape.this s) (CANVAS (PShape.world s)) pline = false ->
  PShape.call_body i s =
    (Ok tt,
     with_pline i (advanced pline (PShape.world s))
       (PShape.mkState (PShape.this s) (after_reads 2 (PShape.world s)))).
Proof.
  intros Hn Hg. unfold PShape.call_body, bind, get. rewrite Hn.
  rewrite (perlin_move_skip pline s Hg).
  unfold PShape.on_world. rewrite call_advanced. reflexivity.
Qed.

(** A point the gate accepts has the segment of its last move drawn, from
    its previous to its current position, and is advanced then. *)
Lemma call_body_draw (i : nat) (s : PShape.state) (pline : PLine.t)
  (px : Z * Z * Z) :
  nth_error (PShape.plines (PShape.this s)) i = Some pline ->
  draw_gate (PShape.this s) (CANVAS (PShape.world s)) pline = true ->
  canvas_getitem (CANVAS (PShape.world s)) (py_int (PLine.yi pline))
    (py_int (PLine.xi pline)) = Ok px ->
  PShape.call_body i s =
    (Ok tt,
     with_pline i (advanced pline (PShape.world s))
       (PShape.mkState (PShape.this s)
          (after_reads 2 (drawn (trail pline px) (PShape.world s))))).
Proof.
  intros Hn Hg Hpx. unfold PShape.call_body, bind, get. rewrite Hn.
  rewrite (perlin_move_draw pline s px Hg Hpx).
  unfold PShape.on_world. cbn [PShape.world PShape.this].
  rewrite call_advanced. reflexivity.
Qed.

(** When reading the pixel under the previous position fails, the tick
    ends there: nothing is drawn and the point is not advanced. *)
Lemma call_body_crash (i : nat) (s : PShape.state) (pline : PLine.t)
  (e : exn) :
  nth_error (PShape.plines (PShape.this s)) i = Some pline ->
  draw_gate (PShape.this s) (CANVAS (PShape.world s)) pline = true ->
  canvas_getitem (CANVAS (PShape.world s)) (py_int (PLine.yi pline))
    (py_int (PLine.xi pline)) = Raise e ->
  PShape.call_body i s = (Raise e, s).
Proof.
  intros Hn Hg Hpx. unfold PShape.call_body, bind, get. rewrite Hn.
  rewrite (perlin_move_crash pline s e Hg Hpx). reflexivity.
Qed.

End Tick.

(** The scenario of a previous position (-5, 500) on the 1000 x 1000 canvas:
    no segment, and the point is advanced. *)
Example left_of_canvas_not_drawn :
  let p := PLine.mk 3 500 (-5) 500 0 500 8 0 1 in
  let s := PShape.mkState (grid_cell 0 500 100 100 "rectangle" [p]) world0 in
  in_canvas (CANVAS world0) p = false /\
  PShape.within_pline (PShape.this s) p = true /\
  exists s', @PShape.call still s = (Ok tt, s') /\
    segments (CANVAS (PShape.world s')) = [] /\
    PShape.plines (PShape.this s') = [PLine.mk 11 500 3 500 0 500 8 0 1].
Proof.
  split; [reflexivity | split; [reflexivity |]].
  eexists. split; [reflexivity | split; reflexivity].
Qed.

(** grid(n=2, margin=0) puts centres on the canvas edge: the first tick of
    its second group, centred at (0, 1000), ends in IndexError at once. *)
Example grid_2_margin_0_second_group :
  exists shapes w' sh,
    grid (Some 2%Z) None None (Some 0) 100 100 "rectangle" world0
      = (Ok shapes, w') /\
    nth_error shapes 1 = Some sh /\
    hd_error (map anchor (PShape.plines sh)) = Some (0 + 0, inject_Z 1000 - 0) /\
    @PShape.call still (PShape.mkState sh w')
      = (Raise IndexError, PShape.mkState sh w').
Proof.
  destruct (grid (Some 2%Z) None None (Some 0) 100 100 "rectangle" world0)
    as [r w'] eqn:E.
  vm_compute in E. injection E as <- <-.
  do 3 eexists. split; [reflexivity |]. split; [reflexivity |].
  split; reflexivity.
Qed.

(** C2: a group whose rectangle reaches the canvas edge x = 1000 and a fresh
    point at its centre (1000, 500): the previous position passes the canvas
    check, whose upper bound is inclusive, and the region check, but reading
    the pixel at column 1000 of a canvas 1000 wide raises IndexError, so the
    tick draws no segment and does not advance the point. *)
Theorem tick_raises_on_canvas_edge (ext : Externals) :
  let p := fresh_pline 1000 500 3 (-4) 7 in
  let self := grid_cell 1000 500 100 100 "rectangle" [p] in
  let s := PShape.mkState self world0 in
  in_canvas (CANVAS world0) p = true /\
  PShape.within_pline self p = true /\
  PShape.perlin_move p s = (Raise IndexError, s) /\
  PShape.call s = (Raise IndexError, s).
Proof.
  repeat split.
Qed.

(** ** grid *)

Lemma randint_range (low high : Z) (w : World) :
  (low < high)%Z ->
  exists v w', randint low high w = (Ok v, w') /\ (low <= v < high)%Z /\
               CANVAS w' = CANVAS w.
Proof.
  intros H. unfold randint.
  destruct (Z.ltb_spec low high) as [_ | Hge]; [| lia].
  do 2 eexists. split; [reflexivity |]. split; [| reflexivity].
  pose proof (Z.mod_pos_bound (np_random w (np_draws w)) (high - low)).
  lia.
Qed.

Lemma pline_init_spec (cx cy : Q) (w : World) :
  exists p w', PLine.init (cx, cy) w = (Ok p, w') /\ starts_at cx cy p /\
               CANVAS w' = CANVAS w.
Proof.
  unfold PLine.init, bind, ret.
  destruct (randint_range (-10) 10 w) as (dx & w1 & -> & Hx & C1); [lia |].
  destruct (randint_range (-10) 10 w1) as (dy & w2 & -> & Hy & C2); [lia |].
  destruct (randint_range (-10) 10 w2) as (dz & w3 & -> & Hz & C3); [lia |].
  do 2 eexists. split; [reflexivity |]. split; [| congruence].
  exists dx, dy, dz. auto.
Qed.

Lemma comprehension_spec (cx cy : Q) (n : nat) :
  forall w, exists pls w',
    comprehension n (PLine.init (cx, cy)) w = (Ok pls, w') /\
    List.length pls = n /\ Forall (starts_at cx cy) pls /\
    CANVAS w' = CANVAS w.
Proof.
  induction n as [| n IH]; intros w; cbn [comprehension].
  - exists [], w. repeat split; constructor.
  - unfold bind.
    destruct (pline_init_spec cx cy w) as (p & w1 & -> & Hp & C1).
    destruct (IH w1) as (pls & w2 & -> & Hl & Hall & C2).
    exists (p :: pls), w2. simpl. repeat split; try congruence.
    now constructor.
Qed.

Lemma pshape_init_spec (center xb yb : Q * Q) (lines : Z) (shape : string)
  (w : World) :
  exists pls w',
    PShape.init center xb yb lines shape w
      = (Ok (PShape.mk pls xb yb shape), w') /\
    List.length pls = Z.to_nat lines /\
    Forall (starts_at (fst center) (snd center)) pls /\
    CANVAS w' = CANVAS w.
Proof.
  unfold PShape.init, bind, ret.
  destruct (comprehension_spec (fst center) (snd center) (Z.to_nat lines) w)
    as (pls & w1 & -> & Hl & Hall & C1).
  exists pls, w1. auto.
Qed.

Section GridLoops.
Variables (hx hy : Q) (shape : string).

Lemma grid_inner (x : Q) (ys : list Q) :
  forall g w, exists new w',
    for_fold ys g (fun g y =>
      lines <- randint 20 80 ;;
      sh <- PShape.init (x, y) (x - hx, x + hx) (y - hy, y + hy)
              lines shape ;;
      ret (g ++ [sh])) w = (Ok (g ++ new), w') /\
    Forall2 (built hx hy shape) (map (pair x) ys) new.
Proof.
  induction ys as [| y ys IH]; intros g w; cbn [for_fold map].
  - exists [], w. rewrite app_nil_r. split; [reflexivity | constructor].
  - unfold bind at 1.
    destruct (randint_range 20 80 w) as (lines & w1 & E1 & Hr & _); [lia |].
    unfold bind at 1. rewrite E1.
    destruct (pshape_init_spec (x, y) (x - hx, x + hx) (y - hy, y + hy)
                lines shape w1) as (pls & w2 & E2 & Hl & Hall & _).
    unfold bind at 1. rewrite E2. unfold ret at 1.
    destruct (IH (g ++ [PShape.mk pls (x - hx, x + hx) (y - hy, y + hy) shape])
                w2) as (new & w3 & E3 & Hnew).
    rewrite E3. eexists (_ :: new), w3.
    rewrite <- app_assoc. split; [reflexivity |].
    constructor; [| exact Hnew].
    unfold built. cbn. repeat split; auto; lia.
Qed.

Lemma grid_outer (xs ys : list Q) :
  forall g w, exists new w',
    for_fold xs g (fun g x =>
      for_fold ys g (fun g y =>
        lines <- randint 20 80 ;;
        sh <- PShape.init (x, y) (x - hx, x + hx) (y - hy, y + hy)
                lines shape ;;
        ret (g ++ [sh]))) w = (Ok (g ++ new), w') /\
    Forall2 (built hx hy shape) (list_prod xs ys) new.
Proof.
  induction xs as [| x xs IH]; intros g w; cbn [for_fold list_prod].
  - exists [], w. rewrite app_nil_r. split; [reflexivity | constructor].
  - unfold bind at 1.
    destruct (grid_inner x ys g w) as (row & w1 & -> & Hrow).
    destruct (IH (g ++ row) w1) as (new & w2 & -> & Hnew).
    exists (row ++ new), w2. rewrite app_assoc.
    split; [reflexivity |]. now apply Forall2_app.
Qed.

End GridLoops.

Lemma truthy_positive (v : option Z) :
  positive_if_given v -> truthy v = true <-> v <> None.
Proof.
  destruct v as [k |]; simpl; intros H.
  - unfold truthyZ. destruct (Z.eqb_spec k 0); [lia |].
    split; [discriminate | reflexivity].
  - split; [discriminate | congruence].
Qed.

Lemma axis_given (m : Q) (extent k : Z) :
  (0 < k)%Z -> exists xs, axis (Some m) extent (Some k) = Ok xs.
Proof.
  intros Hk. unfold axis, margin_span, bindR, linspace.
  destruct (Z.ltb_spec k 0); [lia |]. eexists. reflexivity.
Qed.

Lemma grid_runs (n rows columns : option Z) (margin : option Q)
  (hx hy : Q) (shape : string) (w : World) (xs ys : list Q) :
  grid_spaces n rows columns margin (CANVAS w) = Ok (xs, ys) ->
  exists shapes w',
    grid n rows columns margin hx hy shape w = (Ok shapes, w') /\
    Forall2 (built hx hy shape) (list_prod xs ys) shapes.
Proof.
  intros Hsp. unfold grid, bind, get, lift. rewrite Hsp.
  destruct (grid_outer hx hy shape xs ys [] w) as (new & w' & E & Hnew).
  exists new, w'. split; [exact E | exact Hnew].
Qed.

Lemma grid_fails (n rows columns : option Z) (margin : option Q)
  (hx hy : Q) (shape : string) (w : World) (e : exn) :
  grid_spaces n rows columns margin (CANVAS w) = Raise e ->
  grid n rows columns margin hx hy shape w = (Raise e, w).
Proof.
  intros Hsp. unfold grid, bind, get, lift. now rewrite Hsp.
Qed.

Lemma grid_spaces_given (n rows columns : option Z) (m : Q) (c : Canvas) :
  positive_if_given n -> positive_if_given rows -> positive_if_given columns ->
  ~ no_size n rows columns ->
  exists xs ys, grid_spaces n rows columns (Some m) c = Ok (xs, ys).
Proof.
  intros Hn Hr Hc Hgiven. unfold grid_spaces.
  destruct n as [k |].
  - simpl in Hn. replace (truthy (Some k)) with true
      by (symmetry; apply truthy_positive; [exact Hn | discriminate]).
    destruct (axis_given m (shape0 c) k Hn) as (xs & ->).
    destruct (axis_given m (shape1 c) k Hn) as (ys & ->).
    now exists xs, ys.
  - cbn [truthy].
    destruct rows as [r |]; [| exfalso; apply Hgiven; split; auto].
    destruct columns as [k |]; [| exfalso; apply Hgiven; split; auto].
    simpl in Hr, Hc.
    replace (truthy (Some r)) with true
      by (symmetry; apply truthy_positive; [exact Hr | discriminate]).
    replace (truthy (Some k)) with true
      by (symmetry; apply truthy_positive; [exact Hc | discriminate]).
    cbn [andb py_assert bindR].
    destruct (axis_given m (shape0 c) k Hc) as (xs & ->).
    destruct (axis_given m (shape1 c) r Hr) as (ys & ->).
    now exists xs, ys.
Qed.

Lemma grid_spaces_missing (n rows columns : option Z) (margin : option Q)
  (c : Canvas) :
  positive_if_given rows -> positive_if_given columns ->
  no_size n rows columns ->
  grid_spaces n rows columns margin c
    = Raise (AssertionError (grid_msg rows columns)).
Proof.
  intros Hr Hc [-> Hmiss]. unfold grid_spaces. cbn [truthy].
  destruct Hmiss as [-> | ->]; cbn [truthy andb py_assert bindR].
  - reflexivity.
  - rewrite andb_false_r. reflexivity.
Qed.

(** C8, as the code has it: given a margin, and with each of n, rows and
    columns either left out or a positive integer, grid fails exactly when n
    is left out and rows or columns is left out, and it fails on its
    assertion, whose message names the rows and columns received; otherwise
    it returns the groups, one for each pair of centre coordinates. *)
Theorem grid_precondition (n rows columns : option Z) (m hx hy : Q)
  (shape : string) (w : World) :
  positive_if_given n -> positive_if_given rows -> positive_if_given columns ->
  let r := fst (grid n rows columns (Some m) hx hy shape w) in
  (raises r <-> no_size n rows columns) /\
  (no_size n rows columns ->
   r = Raise (AssertionError (grid_msg rows columns))) /\
  (~ no_size n rows columns -> returns r).
Proof.
  intros Hn Hr Hc r. subst r.
  assert (Hfail : no_size n rows columns ->
                  fst (grid n rows columns (Some m) hx hy shape w)
                  = Raise (AssertionError (grid_msg rows columns))).
  { intros Hmiss.
    rewrite (grid_fails n rows columns (Some m) hx hy shape w _
               (grid_spaces_missing n rows columns (Some m) (CANVAS w)
                  Hr Hc Hmiss)).
    reflexivity. }
  assert (Hok : ~ no_size n rows columns ->
                returns (fst (grid n rows columns (Some m) hx hy shape w))).
  { intros Hgiven.
    destruct (grid_spaces_given n rows columns m (CANVAS w) Hn Hr Hc Hgiven)
      as (xs & ys & Hsp).
    destruct (grid_runs n rows columns (Some m) hx hy shape w xs ys Hsp)
      as (shapes & w' & -> & _).
    now exists shapes. }
  split; [| split; assumption].
  split.
  - intros [e He].
    destruct n as [k |].
    + exfalso. destruct Hok as [a Ha]; [intros [Hk _]; discriminate |].
      congruence.
    + destruct rows as [rw |]; [| split; auto].
      destruct columns as [cl |]; [| split; auto].
      exfalso. destruct Hok as [a Ha]; [intros [_ [Hk | Hk]]; discriminate |].
      congruence.
  - intros Hmiss. eexists. now apply Hfail.
Qed.

Lemma grid_precondition_witness :
  returns (fst (grid (Some 3%Z) None None (Some 200) 100 100 "rectangle" world0))
  /\ fst (grid None (Some 2%Z) None (Some 200) 100 100 "rectangle" world0)
     = Raise (AssertionError
                "Rows and Columns must be defined if not using n.  Rows: 2 Columns None").
Proof.
  split.
  - apply (grid_precondition (Some 3%Z) None None 200 100 100 "rectangle" world0);
      simpl; try lia; try exact I.
    intros [H _]. discriminate H.
  - apply (grid_precondition None (Some 2%Z) None 200 100 100 "rectangle" world0);
      simpl; try lia; try exact I.
    split; [reflexivity | right; reflexivity].
Defined.

(** C8 as stated fails: grid(n=3) has its grid size supplied, but with the
    margin left at its default None it raises (a TypeError, on 0+margin). *)
Lemma grid_without_margin_raises :
  grid (Some 3%Z) None None None 100 100 "rectangle" world0
    = (Raise TypeError, world0) /\
  ~ no_size (Some 3%Z) None None.
Proof.
  split; [reflexivity |]. intros [H _]. discriminate H.
Qed.

(** A negative grid size is refused by linspace. *)
Lemma grid_negative_size_raises :
  grid (Some (-1)%Z) None None (Some 200) 100 100 "rectangle" world0
    = (Raise ValueError, world0).
Proof. reflexivity. Qed.

(** C7: on a canvas of 1000 x 1000, grid(n=3, margin=200) returns exactly 9
    groups; their centres are the pairs of linspace(200, 800, 3), that is of
    200, 500 and 800, x varying slowest; each group owns at least 20 and
    fewer than 80 points starting at its centre, and its region spans the
    half-extents (100 by default) on either side of the centre on both axes. *)
Theorem grid_3_by_3 (px : Pixels) (segs : list Segment) (rnd : nat -> Z)
  (draws : nat) (clock : nat -> Q) (reads : nat) :
  exists xs shapes w',
    linspace 200 800 3 = Ok xs /\
    Forall2 Qeq xs [200; 500; 800] /\
    grid (Some 3%Z) None None (Some 200) 100 100 "rectangle"
         (world_1000 px segs rnd draws clock reads) = (Ok shapes, w') /\
    List.length shapes = 9%nat /\
    Forall2 (built 100 100 "rectangle") (list_prod xs xs) shapes.
Proof.
  remember (linspace 200 800 3) as r eqn:E. vm_compute in E. subst r.
  eexists.
  match goal with |- exists shapes w', Ok ?l = _ /\ _ =>
    destruct (grid_runs (Some 3%Z) None None (Some 200) 100 100 "rectangle"
                (world_1000 px segs rnd draws clock reads) l l)
      as (shapes & w' & Hrun & Hall); [vm_compute; reflexivity |];
    exists shapes, w'
  end.
  split; [reflexivity |]. split.
  - repeat constructor.
  - split; [exact Hrun |]. split; [| exact Hall].
    apply Forall2_length in Hall. simpl in Hall. congruence.
Qed.

(** ** rgba2rgb: the blend *)


Lemma py_int_inject (q : Q) (n : Z) : q == inject_Z n -> py_int q = n.
Proof.
  destruct q as [a d]. unfold py_int, Qeq. simpl. intros H.
  rewrite Z.mul_1_r in H. rewrite H. apply Z.quot_mul. lia.
Qed.






Lemma mix_opaque (bg c : Z) : py_int ((1 - 1) * inject_Z bg + 1 * inject_Z c) = c.
Proof. apply py_int_inject. ring. Qed.

Lemma mix_clear (bg c : Z) : py_int ((1 - 0) * inject_Z bg + 0 * inject_Z c) = bg.
Proof. apply py_int_inject. ring. Qed.

(** X2: for integer channels, a weight of 1, read from the colour or given
    as alpha, returns the colour's three channels unchanged, and a colour
    whose own alpha is 0 returns the background's. *)
Theorem rgba2rgb_opaque_and_clear (c0 c1 c2 b0 b1 b2 : Z) :
  let color := [inject_Z c0; inject_Z c1; inject_Z c2] in
  let background := [inject_Z b0; inject_Z b1; inject_Z b2] in
  rgba2rgb (color ++ [1]) background None = Ok (c0, c1, c2) /\
  rgba2rgb color background (Some 1) = Ok (c0, c1, c2) /\
  rgba2rgb (color ++ [0]) background None = Ok (b0, b1, b2).
Proof.
  cbn [app]. unfold rgba2rgb, alpha_of_color, blend.
  cbn [List.length Nat.eqb py_assert bindR last_item rev app item nth_error
       truthyQ Qeq_bool negb].
  replace (truthyQ 1) with true by reflexivity. cbn [bindR].
  rewrite !mix_opaque, !mix_clear. auto.
Qed.

(** X3: an alpha argument of zero is falsy, so it is ignored: the result is
    that of the call without alpha, taken from the colour's fourth channel
    or failing on the assertion when the colour has no fourth channel. *)
Theorem rgba2rgb_zero_alpha_ignored (color background : list Q) (al : Q) :
  al == 0 ->
  rgba2rgb color background (Some al) = rgba2rgb color background None.
Proof.
  intros H. unfold rgba2rgb, truthyQ.
  rewrite (proj2 (Qeq_bool_iff al 0) H). reflexivity.
Qed.

Lemma rgba2rgb_zero_alpha_ignored_witness :
  rgba2rgb [255; 255; 255] [0; 0; 0] (Some 0)
  = Raise (AssertionError rgba_msg).
Proof.
  rewrite (rgba2rgb_zero_alpha_ignored [255; 255; 255] [0; 0; 0] 0);
    reflexivity.
Defined.

(** ** PShape.within: the circle branch *)

Lemma np_divide_by_zero (a b : Q) :
  0 <= a -> b == 0 -> np_divide a b = NaN \/ np_divide a b = PosInf.
Proof.
  intros Ha Hb. unfold np_divide.
  rewrite (proj2 (Qeq_bool_iff b 0) Hb).
  destruct (a ?= 0) eqn:C; auto.
  apply Qlt_alt in C. exfalso. apply (Qlt_not_le _ _ C Ha).
Qed.

Lemma np_divide_not_neginf (a b : Q) : 0 <= a -> np_divide a b <> NegInf.
Proof.
  intros Ha. unfold np_divide. destruct (Qeq_bool b 0); [| discriminate].
  destruct (a ?= 0) eqn:C; try discriminate.
  apply Qlt_alt in C. exfalso. apply (Qlt_not_le _ _ C Ha).
Qed.

Lemma np_sum_not_finite (u v : npfloat) :
  u <> NegInf -> v <> NegInf ->
  u = NaN \/ u = PosInf \/ v = NaN \/ v = PosInf ->
  forall q, np_le (np_add u v) q = false.
Proof.
  intros Hu Hv H q.
  destruct u, v; try congruence; try reflexivity;
    destruct H as [H | [H | [H | H]]]; discriminate H.
Qed.

Lemma zero_extent_sq (c h : Q) : h == 0 -> (c + h - (c - h)) ^ 2 == 0.
Proof. intros H. rewrite full_extent, H. reflexivity. Qed.

(** X4: for non-zero half-extents hx, hy, the containment check of a circle
    group returns true exactly for the previous positions inside or on the
    ellipse around the point's anchor whose semi-axes are the full extents
    2*hx and 2*hy of the bounds. *)
Theorem circle_region_is_full_extent_ellipse (cx cy hx hy : Q)
  (pls : list PLine.t) (p : PLine.t) :
  ~ hx == 0 -> ~ hy == 0 ->
  PShape.within (grid_cell cx cy hx hy "circle" pls) (ObjPLine p) None
    = Ok true <->
  (PLine.xi p - PLine.xo p) ^ 2 / (2 * hx) ^ 2
  + (PLine.yi p - PLine.yo p) ^ 2 / (2 * hy) ^ 2 <= 1.
Proof.
  intros Hx Hy. rewrite <- (within_circle_iff cx cy hx hy pls p Hx Hy).
  cbn [PShape.within]. split; [intros H; injection H; auto | intros ->; auto].
Qed.

Lemma circle_region_is_full_extent_ellipse_witness :
  PShape.within (grid_cell 500 500 100 100 "circle" [])
    (ObjPLine (PLine.mk 700 500 700 500 500 500 0 0 0)) None = Ok true.
Proof.
  apply (circle_region_is_full_extent_ellipse 500 500 100 100 []
           (PLine.mk 700 500 700 500 500 500 0 0 0));
    [discriminate | discriminate | discriminate].
Defined.

(** X5: a circle group with a zero extent on either axis contains no
    point at all: the division by zero yields an infinity or a NaN, which
    the comparison with 1 rejects, and raises nothing. *)
Theorem circle_zero_extent_rejects (cx cy hx hy : Q) (pls : list PLine.t)
  (p : PLine.t) :
  hx == 0 \/ hy == 0 ->
  PShape.within (grid_cell cx cy hx hy "circle" pls) (ObjPLine p) None
    = Ok false.
Proof.
  intros H. cbn [PShape.within]. f_equal.
  unfold PShape.within_pline, grid_cell.
  cbn [PShape.shape PShape.xbounds PShape.ybounds fst snd].
  replace (("circle" =? "rectangle")%string) with false by reflexivity.
  replace (("circle" =? "circle")%string) with true by reflexivity.
  pose proof (sq_nonneg (PLine.xi p - PLine.xo p)) as Nx.
  pose proof (sq_nonneg (PLine.yi p - PLine.yo p)) as Ny.
  rewrite np_sum_not_finite; [reflexivity | | |].
  - now apply np_divide_not_neginf.
  - now apply np_divide_not_neginf.
  - destruct H as [H | H].
    + destruct (np_divide_by_zero _ _ Nx (zero_extent_sq cx hx H)); auto.
    + destruct (np_divide_by_zero _ _ Ny (zero_extent_sq cy hy H)); auto.
Qed.

Lemma circle_zero_extent_rejects_witness :
  PShape.within (grid_cell 500 500 100 0 "circle" [])
    (ObjPLine (fresh_pline 500 500 1 2 3)) None = Ok false.
Proof.
  apply (circle_zero_extent_rejects 500 500 100 0 [] (fresh_pline 500 500 1 2 3)).
  right. reflexivity.
Defined.

Lemma quarter (u h : Q) :
  ~ h == 0 -> - h <= u <= h -> u ^ 2 / (2 * h) ^ 2 <= 1 # 4.
Proof.
  intros Hh Hu.
  assert (Hpos : 0 < (2 * h) ^ 2).
  { simpl. destruct Hu. assert (0 <= h) by lra.
    assert (0 < h) by (apply Qle_lteq in H1; destruct H1; [auto | exfalso; apply Hh; now symmetry]).
    nra. }
  apply Qle_shift_div_r; [exact Hpos |]. simpl. nra.
Qed.

(** X6: for a point anchored at the centre of the group, every previous
    position the rectangle check accepts is accepted by the circle check of
    the same bounds as well. *)
Theorem rectangle_inside_circle (cx cy hx hy : Q) (pls : list PLine.t)
  (p : PLine.t) :
  ~ hx == 0 -> ~ hy == 0 ->
  PLine.xo p = cx -> PLine.yo p = cy ->
  PShape.within_pline (grid_cell cx cy hx hy "rectangle" pls) p = true ->
  PShape.within_pline (grid_cell cx cy hx hy "circle" pls) p = true.
Proof.
  intros Hx Hy Ex Ey Hrect.
  apply within_rectangle_iff in Hrect; [| reflexivity].
  cbn [grid_cell PShape.xbounds PShape.ybounds fst snd] in Hrect.
  destruct Hrect as [[X1 X2] [Y1 Y2]].
  apply within_circle_iff; [assumption | assumption |].
  rewrite Ex, Ey.
  assert (Qx : (PLine.xi p - cx) ^ 2 / (2 * hx) ^ 2 <= 1 # 4)
    by (apply quarter; [assumption | split; lra]).
  assert (Qy : (PLine.yi p - cy) ^ 2 / (2 * hy) ^ 2 <= 1 # 4)
    by (apply quarter; [assumption | split; lra]).
  lra.
Qed.

Lemma rectangle_inside_circle_witness :
  PShape.within_pline (grid_cell 500 500 100 100 "circle" [])
    (PLine.mk 610 400 600 400 500 500 10 0 0) = true.
Proof.
  apply (rectangle_inside_circle 500 500 100 100 []
           (PLine.mk 610 400 600 400 500 500 10 0 0));
    [discriminate | discriminate | reflexivity | reflexivity | reflexivity].
Defined.

(** ** PLine: drift over several advances *)

Lemma QofN_succ (n : nat) : QofN (Datatypes.S n) == QofN n + 1.
Proof.
  unfold QofN. rewrite Nat2Z.inj_succ, <- Z.add_1_r, inject_Z_plus.
  reflexivity.
Qed.

Lemma QofN_nonneg (n : nat) : 0 <= QofN n.
Proof.
  unfold QofN. change 0 with (inject_Z 0). rewrite <- Zle_Qle. lia.
Qed.

Section Drift.
Context {ext : Externals}.
Hypothesis noise_range : bounded_noise ext.

Lemma advanced_increments (p : PLine.t) (w : World) :
  PLine.xinc p - 1 <= PLine.xinc (advanced p w) <= PLine.xinc p + 1 /\
  PLine.yinc p - 1 <= PLine.yinc (advanced p w) <= PLine.yinc p + 1 /\
  PLine.x (advanced p w) = PLine.x p + PLine.xinc (advanced p w) /\
  PLine.y (advanced p w) = PLine.y p + PLine.yinc (advanced p w).
Proof.
  unfold advanced. cbn [PLine.xinc PLine.yinc PLine.x PLine.y].
  pose proof (noise_range (PLine.x p * 0.01) (PLine.y p * 0.01)
                (time_input p w 0)) as [X1 X2].
  pose proof (noise_range (PLine.y p * 0.01) (PLine.x p * 0.01)
                (time_input p w 1)) as [Y1 Y2].
  repeat split; lra.
Qed.

Lemma drift_bounds (n : nat) :
  forall p w p' w',
    repeatM n PLine.call p w = (Ok p', w') ->
    (PLine.xinc p - QofN n <= PLine.xinc p' <= PLine.xinc p + QofN n /\
     PLine.yinc p - QofN n <= PLine.yinc p' <= PLine.yinc p + QofN n) /\
    (QofN n * PLine.xinc p - QofN n * (QofN n + 1) / 2
       <= PLine.x p' - PLine.x p
       <= QofN n * PLine.xinc p + QofN n * (QofN n + 1) / 2 /\
     QofN n * PLine.yinc p - QofN n * (QofN n + 1) / 2
       <= PLine.y p' - PLine.y p
       <= QofN n * PLine.yinc p + QofN n * (QofN n + 1) / 2).
Proof.
  induction n as [| n IH]; intros p w p' w' Hrun.
  - cbn in Hrun. injection Hrun as <- <-.
    change (QofN 0) with 0. unfold Qdiv. change (/ 2) with (1 # 2).
    repeat split; lra.
  - cbn [repeatM] in Hrun. unfold bind in Hrun.
    rewrite call_advanced in Hrun.
    specialize (IH _ _ _ _ Hrun).
    unfold Qdiv in *. change (/ 2) with (1 # 2) in *.
    destruct (advanced_increments p w) as (X & Y & Ex & Ey).
    rewrite Ex, Ey in IH.
    pose proof (QofN_succ n) as Hs. pose proof (QofN_nonneg n) as Hn.
    set (k := QofN n) in *. set (k1 := QofN (Datatypes.S n)) in *.
    set (vx := PLine.xinc (advanced p w)) in *.
    set (vy := PLine.yinc (advanced p w)) in *.
    destruct IH as [[[A1 A2] [B1 B2]] [[C1 C2] [D1 D2]]].
    destruct X as [X1 X2]. destruct Y as [Y1 Y2].
    rewrite Hs. repeat split; try lra; nra.
Qed.

End Drift.

(** X7: when the noise samples lie in [-1, 1], n advances change each
    increment by at most n, and move the point on each axis by n times its
    initial increment give or take n(n+1)/2. *)
Theorem advance_drift_bounded (ext : Externals) (n : nat) (p p' : PLine.t)
  (w w' : World) :
  bounded_noise ext ->
  repeatM n PLine.call p w = (Ok p', w') ->
  (PLine.xinc p - QofN n <= PLine.xinc p' <= PLine.xinc p + QofN n /\
   PLine.yinc p - QofN n <= PLine.yinc p' <= PLine.yinc p + QofN n) /\
  (QofN n * PLine.xinc p - QofN n * (QofN n + 1) / 2
     <= PLine.x p' - PLine.x p
     <= QofN n * PLine.xinc p + QofN n * (QofN n + 1) / 2 /\
   QofN n * PLine.yinc p - QofN n * (QofN n + 1) / 2
     <= PLine.y p' - PLine.y p
     <= QofN n * PLine.yinc p + QofN n * (QofN n + 1) / 2).
Proof.
  intros Hnoise Hrun. exact (drift_bounds Hnoise n p w p' w' Hrun).
Qed.

Lemma advance_drift_bounded_witness :
  let p := fresh_pline 0 0 3 (-4) 7 in
  let p' := PLine.mk 6 (-8) 3 (-4) 0 0 3 (-4) 7 in
  (PLine.xinc p - QofN 2 <= PLine.xinc p' <= PLine.xinc p + QofN 2 /\
   PLine.yinc p - QofN 2 <= PLine.yinc p' <= PLine.yinc p + QofN 2) /\
  (QofN 2 * PLine.xinc p - QofN 2 * (QofN 2 + 1) / 2
     <= PLine.x p' - PLine.x p
     <= QofN 2 * PLine.xinc p + QofN 2 * (QofN 2 + 1) / 2 /\
   QofN 2 * PLine.yinc p - QofN 2 * (QofN 2 + 1) / 2
     <= PLine.y p' - PLine.y p
     <= QofN 2 * PLine.yinc p + QofN 2 * (QofN 2 + 1) / 2).
Proof.
  intros p p'.
  apply (advance_drift_bounded still 2 p p' world0 (after_reads 4 world0)).
  - intros a b t. split; discriminate.
  - reflexivity.
Defined.

(** ** PShape.__call__: whole ticks *)






Lemma update_length {A : Type} (l : list A) (i : nat) (v : A) :
  List.length (PShape.update l i v) = List.length l.
Proof.
  revert i. induction l as [| a l IH]; intros [| i]; cbn; auto.
Qed.

Section WholeTick.
Context {ext : Externals}.




End WholeTick.

Section TickInvariant.
Context {ext : Externals}.

Lemma trail_starts_inside (s : PShape.state) (p : PLine.t) (px : Z * Z * Z) :
  draw_gate (PShape.this s) (CANVAS (PShape.world s)) p = true ->
  starts_inside (PShape.this s) (CANVAS (PShape.world s)) (trail p px).
Proof.
  unfold draw_gate, in_canvas. intros G.
  apply andb_true_iff in G. destruct G as [Hin Hreg].
  apply andb_true_iff in Hin. destruct Hin as [Ix Iy].
  apply within_position_iff in Ix. apply within_position_iff in Iy.
  split; [split; assumption |].
  intros Hshape. now apply within_rectangle_iff in Hreg.
Qed.

(** The effect of one pass of the loop, whatever its outcome. *)
Lemma call_body_effect (i : nat) (s : PShape.state) :
  let s' := snd (PShape.call_body i s) in
  setup (PShape.this s') = setup (PShape.this s) /\
  np_random (PShape.world s') = np_random (PShape.world s) /\
  np_draws (PShape.world s') = np_draws (PShape.world s) /\
  wall_clock (PShape.world s') = wall_clock (PShape.world s) /\
  shape0 (CANVAS (PShape.world s')) = shape0 (CANVAS (PShape.world s)) /\
  shape1 (CANVAS (PShape.world s')) = shape1 (CANVAS (PShape.world s)) /\
  (segments (CANVAS (PShape.world s')) = segments (CANVAS (PShape.world s))
   \/ exists seg,
        segments (CANVAS (PShape.world s'))
        = seg :: segments (CANVAS (PShape.world s)) /\
        starts_inside (PShape.this s) (CANVAS (PShape.world s)) seg).
Proof.
  destruct (nth_error (PShape.plines (PShape.this s)) i) as [p |] eqn:Hn.
  - destruct (draw_gate (PShape.this s) (CANVAS (PShape.world s)) p) eqn:G.
    + destruct (canvas_getitem (CANVAS (PShape.world s))
                  (py_int (PLine.yi p)) (py_int (PLine.xi p)))
        as [px | e] eqn:E.
      * rewrite (call_body_draw i s p px Hn G E).
        cbn [snd]. unfold with_pline, setup.
        cbn [PShape.this PShape.world PShape.plines PShape.xbounds
             PShape.ybounds PShape.shape].
        rewrite update_length. repeat split.
        right. exists (trail p px). split; [reflexivity |].
        now apply trail_starts_inside.
      * rewrite (call_body_crash i s p e Hn G E). cbn [snd].
        repeat split. now left.
    + rewrite (call_body_skip i s p Hn G).
      cbn [snd]. unfold with_pline, setup.
      cbn [PShape.this PShape.world PShape.plines PShape.xbounds
           PShape.ybounds PShape.shape].
      rewrite update_length. repeat split. now left.
  - unfold PShape.call_body, bind, get. rewrite Hn. cbn [lift snd].
    repeat split. now left.
Qed.

Lemma starts_inside_same (sh sh0 : PShape.t) (c c0 : Canvas) (seg : Segment) :
  setup sh = setup sh0 -> shape0 c = shape0 c0 -> shape1 c = shape1 c0 ->
  starts_inside sh c seg -> starts_inside sh0 c0 seg.
Proof.
  unfold setup, starts_inside. intros Hs H0 H1.
  injection Hs as _ Hx Hy Hsh. now rewrite Hx, Hy, Hsh, H0, H1.
Qed.

Lemma call_body_inv (s0 : PShape.state) (k i : nat) (s : PShape.state) :
  tick_inv s0 k s -> tick_inv s0 (Datatypes.S k) (snd (PShape.call_body i s)).
Proof.
  intros (Hs & H1 & H2 & H3 & H4 & H5 & new & Hseg & Hall & Hlen).
  destruct (call_body_effect i s) as (Es & E1 & E2 & E3 & E4 & E5 & Eseg).
  unfold tick_inv. repeat split; try congruence.
  destruct Eseg as [Eseg | (seg & Eseg & Hin)].
  - exists new. rewrite Eseg. repeat split; auto.
  - exists (seg :: new). rewrite Eseg, Hseg. repeat split; cbn; [| lia].
    constructor; [| exact Hall].
    now apply (starts_inside_same _ _ _ _ _ Hs H4 H5).
Qed.

Lemma for_each_inv (s0 : PShape.state) (xs : list nat) :
  forall k s,
    tick_inv s0 k s ->
    tick_inv s0 (List.length xs + k) (snd (for_each xs PShape.call_body s)).
Proof.
  induction xs as [| i xs IH]; intros k s H; cbn [for_each List.length].
  - exact H.
  - unfold bind. pose proof (call_body_inv s0 k i s H) as H1.
    destruct (PShape.call_body i s) as [[[] | e] s1]; cbn [snd] in *.
    + replace (Datatypes.S (List.length xs) + k)%nat
        with (List.length xs + Datatypes.S k)%nat by lia.
      now apply IH.
    + destruct H1 as (A & B & C & D & E & F & new & G1 & G2 & G3).
      repeat split; auto. exists new. repeat split; auto. lia.
Qed.

Lemma call_inv (s0 : PShape.state) (k : nat) (s : PShape.state) :
  tick_inv s0 k s ->
  tick_inv s0 (List.length (PShape.plines (PShape.this s0)) + k)
           (snd (PShape.call s)).
Proof.
  intros H. unfold PShape.call, bind, get.
  pose proof (for_each_inv s0
                (seq 0 (List.length (PShape.plines (PShape.this s)))) k s H)
    as Hrun.
  rewrite length_seq in Hrun.
  destruct H as (Hs & _). unfold setup in Hs. injection Hs as Hl _ _ _.
  rewrite <- Hl. exact Hrun.
Qed.

Lemma ticks_inv (s0 : PShape.state) (n : nat) :
  forall k s,
    tick_inv s0 k s ->
    tick_inv s0 (n * List.length (PShape.plines (PShape.this s0)) + k)
             (snd (ticks n s)).
Proof.
  induction n as [| n IH]; intros k s H; cbn [ticks].
  - exact H.
  - unfold bind. pose proof (call_inv s0 k s H) as H1.
    destruct (PShape.call s) as [[[] | e] s1]; cbn [snd] in *.
    + specialize (IH _ _ H1).
      replace (Datatypes.S n * List.length (PShape.plines (PShape.this s0)) + k)%nat
        with (n * List.length (PShape.plines (PShape.this s0))
              + (List.length (PShape.plines (PShape.this s0)) + k))%nat by lia.
      exact IH.
    + destruct H1 as (A & B & C & D & E & F & new & G1 & G2 & G3).
      repeat split; auto. exists new. repeat split; auto. lia.
Qed.

Lemma tick_inv_start (s : PShape.state) : tick_inv s 0 s.
Proof.
  unfold tick_inv. repeat split. exists []. repeat split; auto.
Qed.

End TickInvariant.

(** X8: over any number of ticks, completed or ended by an exception, a
    group keeps its number of points, its bounds and its shape tag; the
    random generator is not used, the stream of clock values and the
    dimensions of the canvas stay as they were. *)
Theorem ticks_keep_setup (ext : Externals) (n : nat) (s : PShape.state) :
  let s' := snd (ticks n s) in
  List.length (PShape.plines (PShape.this s'))
  = List.length (PShape.plines (PShape.this s)) /\
  PShape.xbounds (PShape.this s') = PShape.xbounds (PShape.this s) /\
  PShape.ybounds (PShape.this s') = PShape.ybounds (PShape.this s) /\
  PShape.shape (PShape.this s') = PShape.shape (PShape.this s) /\
  np_random (PShape.world s') = np_random (PShape.world s) /\
  np_draws (PShape.world s') = np_draws (PShape.world s) /\
  wall_clock (PShape.world s') = wall_clock (PShape.world s) /\
  shape0 (CANVAS (PShape.world s')) = shape0 (CANVAS (PShape.world s)) /\
  shape1 (CANVAS (PShape.world s')) = shape1 (CANVAS (PShape.world s)).
Proof.
  intros s'. subst s'.
  destruct (ticks_inv s n 0 s (tick_inv_start s))
    as (Hs & H1 & H2 & H3 & H4 & H5 & _).
  unfold setup in Hs. injection Hs as Hl Hx Hy Hsh.
  repeat split; assumption.
Qed.

(** X9: the segments drawn by any number of ticks, completed or ended by an
    exception, are added in front of those drawn before, which are all kept;
    there is at most one per point and tick, and each starts inside the
    canvas bounds and, for a rectangle group, inside the rectangle. *)
Theorem ticks_draw_inside (ext : Externals) (n : nat) (s : PShape.state) :
  exists new,
    segments (CANVAS (PShape.world (snd (ticks n s))))
    = new ++ segments (CANVAS (PShape.world s)) /\
    Forall (starts_inside (PShape.this s) (CANVAS (PShape.world s))) new /\
    (List.length new <= n * List.length (PShape.plines (PShape.this s)))%nat.
Proof.
  destruct (ticks_inv s n 0 s (tick_inv_start s))
    as (_ & _ & _ & _ & _ & _ & new & Hseg & Hall & Hlen).
  exists new. repeat split; [assumption | assumption | lia].
Qed.



(** X11: a group built with no lines (or a negative number of them) owns no
    point and uses no random draw, and its tick does nothing at all. *)
Theorem empty_group_is_inert (ext : Externals) (center xb yb : Q * Q)
  (lines : Z) (shape : string) (w : World) :
  (lines <= 0)%Z ->
  PShape.init center xb yb lines shape w = (Ok (PShape.mk [] xb yb shape), w) /\
  forall n,
    ticks n (PShape.mkState (PShape.mk [] xb yb shape) w)
    = (Ok tt, PShape.mkState (PShape.mk [] xb yb shape) w).
Proof.
  intros Hl. split.
  - unfold PShape.init. replace (Z.to_nat lines) with 0%nat by lia.
    reflexivity.
  - induction n as [| n IH]; [reflexivity |].
    cbn [ticks]. unfold bind at 1.
    replace (PShape.call (PShape.mkState (PShape.mk [] xb yb shape) w))
      with (@Ok unit tt, PShape.mkState (PShape.mk [] xb yb shape) w)
      by reflexivity.
    exact IH.
Qed.

Lemma empty_group_is_inert_witness :
  PShape.init (500, 500) (400, 600) (400, 600) 0 "rectangle" world0
  = (Ok (PShape.mk [] (400, 600) (400, 600) "rectangle"), world0).
Proof.
  apply (empty_group_is_inert still (500, 500) (400, 600) (400, 600) 0
           "rectangle" world0).
  lia.
Defined.

(** ** grid: how many groups, and where *)

Lemma in_removelast {A : Type} (l : list A) (x : A) :
  In x (removelast l) -> In x l.
Proof.
  induction l as [| a [| b l] IH]; cbn [removelast]; intros H.
  - exact H.
  - destruct H.
  - destruct H as [-> | H]; [now left | right; now apply IH].
Qed.

Lemma length_removelast_last {A : Type} (l : list A) (x : A) :
  l <> [] -> List.length (removelast l ++ [x]) = List.length l.
Proof.
  intros Hl. destruct (exists_last Hl) as (l' & a & ->).
  rewrite removelast_last, !length_app. reflexivity.
Qed.

Lemma linspace_length (start stop : Q) (num : Z) (xs : list Q) :
  linspace start stop num = Ok xs -> List.length xs = Z.to_nat num.
Proof.
  unfold linspace. destruct (Z.ltb_spec num 0); [discriminate |].
  intros H0. injection H0 as <-.
  destruct (Z.ltb_spec 1 num).
  - rewrite length_removelast_last.
    + now rewrite length_map, length_seq.
    + destruct (Z.to_nat num) eqn:E; [lia | discriminate].
  - now rewrite length_map, length_seq.
Qed.

Lemma scaled_step (k d delta : Q) :
  0 <= k <= d -> 0 < d -> 0 <= delta -> 0 <= k * (delta / d) <= delta.
Proof.
  intros [Hk Hkd] Hd Hdelta.
  assert (He : 0 <= delta / d) by (apply Qle_shift_div_l; lra).
  assert (Hde : d * (delta / d) == delta) by (apply Qmult_div_r; lra).
  split; nra.
Qed.

Lemma linspace_range (start stop : Q) (num : Z) (xs : list Q) :
  start <= stop ->
  linspace start stop num = Ok xs ->
  Forall (fun x => start <= x <= stop) xs.
Proof.
  intros Hle. unfold linspace. destruct (Z.ltb_spec num 0); [discriminate |].
  intros H0. injection H0 as <-.
  assert (Hys : (1 < num)%Z ->
    Forall (fun x => start <= x <= stop)
      (map (fun i : nat =>
              if (0 <? num - 1)%Z
              then inject_Z (Z.of_nat i) * ((stop - start) / inject_Z (num - 1))
                   + start
              else inject_Z (Z.of_nat i) * (stop - start) + start)
           (seq 0 (Z.to_nat num)))).
  { intros Hn. apply Forall_forall. intros x Hx.
    apply in_map_iff in Hx. destruct Hx as (i & <- & Hi).
    apply in_seq in Hi.
    destruct (Z.ltb_spec 0 (num - 1)); [| lia].
    assert (Hk : 0 <= inject_Z (Z.of_nat i) <= inject_Z (num - 1)).
    { change 0 with (inject_Z 0). rewrite <- !Zle_Qle. lia. }
    assert (Hd : 0 < inject_Z (num - 1)).
    { change 0 with (inject_Z 0). rewrite <- Zlt_Qlt. lia. }
    pose proof (scaled_step _ _ (stop - start) Hk Hd ltac:(lra)). lra. }
  destruct (Z.ltb_spec 1 num) as [Hn | Hn].
  - apply Forall_app. split.
    + specialize (Hys Hn). rewrite Forall_forall in *.
      intros x Hx. apply Hys. now apply in_removelast.
    + constructor; [lra | constructor].
  - apply Forall_forall. intros x Hx.
    apply in_map_iff in Hx. destruct Hx as (i & <- & Hi).
    apply in_seq in Hi.
    destruct (Z.ltb_spec 0 (num - 1)); [lia |].
    assert (i = 0%nat) by lia. subst i.
    change (inject_Z (Z.of_nat 0)) with 0. lra.
Qed.

(** The axes behind a run of [grid] that got past its head. *)
Lemma grid_spaces_axes (n rows columns : option Z) (margin : option Q)
  (c : Canvas) (xs ys : list Q) :
  grid_spaces n rows columns margin c = Ok (xs, ys) ->
  exists m kx ky,
    margin = Some m /\
    linspace (0 + m) (inject_Z (shape0 c) - m) kx = Ok xs /\
    linspace (0 + m) (inject_Z (shape1 c) - m) ky = Ok ys /\
    ((truthy n = true /\ n = Some kx /\ n = Some ky)
     \/ (truthy n = false /\ columns = Some kx /\ rows = Some ky)).
Proof.
  unfold grid_spaces, axis, margin_span.
  destruct margin as [m |].
  - destruct (truthy n) eqn:Tn.
    + destruct n as [k |]; [| discriminate Tn]. cbn [bindR fst snd].
      destruct (linspace (0 + m) (inject_Z (shape0 c) - m) k) as [xs' |] eqn:Ex;
        [| discriminate].
      destruct (linspace (0 + m) (inject_Z (shape1 c) - m) k) as [ys' |] eqn:Ey;
        [| discriminate].
      cbn [bindR]. intros H. injection H as <- <-.
      exists m, k, k. auto 10.
    + destruct (truthy rows && truthy columns) eqn:Trc; [| discriminate].
      apply andb_true_iff in Trc. destruct Trc as [Tr Tc].
      destruct rows as [r |]; [| discriminate Tr].
      destruct columns as [k |]; [| discriminate Tc].
      cbn [py_assert bindR fst snd].
      destruct (linspace (0 + m) (inject_Z (shape0 c) - m) k) as [xs' |] eqn:Ex;
        [| discriminate].
      destruct (linspace (0 + m) (inject_Z (shape1 c) - m) r) as [ys' |] eqn:Ey;
        [| discriminate].
      cbn [bindR]. intros H. injection H as <- <-.
      exists m, k, r. auto 10.
  - destruct (truthy n); cbn [bindR].
    + discriminate.
    + destruct (py_assert _ _); discriminate.
Qed.

(** A run of [grid] that returns went through its loops. *)
Lemma grid_returns_built (n rows columns : option Z) (margin : option Q)
  (hx hy : Q) (shape : string) (w w' : World) (shapes : list PShape.t) :
  grid n rows columns margin hx hy shape w = (Ok shapes, w') ->
  exists xs ys,
    grid_spaces n rows columns margin (CANVAS w) = Ok (xs, ys) /\
    Forall2 (built hx hy shape) (list_prod xs ys) shapes.
Proof.
  intros Hrun.
  destruct (grid_spaces n rows columns margin (CANVAS w)) as [[xs ys] | e] eqn:E.
  - destruct (grid_runs n rows columns margin hx hy shape w xs ys E)
      as (shapes' & w'' & Hrun' & Hall).
    rewrite Hrun in Hrun'. injection Hrun' as <- <-.
    now exists xs, ys.
  - rewrite (grid_fails n rows columns margin hx hy shape w e E) in Hrun.
    discriminate Hrun.
Qed.

(** X12: when grid returns, it returns n*n groups for a non-zero grid size
    n, whatever rows and columns are; with n left out or zero it returns
    columns*rows groups. *)
Theorem grid_group_count (n rows columns : option Z) (margin : option Q)
  (hx hy : Q) (shape : string) (w w' : World) (shapes : list PShape.t) :
  grid n rows columns margin hx hy shape w = (Ok shapes, w') ->
  (forall k, n = Some k -> k <> 0%Z ->
     List.length shapes = (Z.to_nat k * Z.to_nat k)%nat) /\
  (truthy n = false ->
     exists r c, rows = Some r /\ columns = Some c /\
       List.length shapes = (Z.to_nat c * Z.to_nat r)%nat).
Proof.
  intros Hrun.
  destruct (grid_returns_built _ _ _ _ _ _ _ _ _ _ Hrun)
    as (xs & ys & Hsp & Hall).
  apply Forall2_length in Hall. rewrite length_prod in Hall.
  destruct (grid_spaces_axes _ _ _ _ _ _ _ Hsp)
    as (m & kx & ky & _ & Hx & Hy & Hcase).
  apply linspace_length in Hx. apply linspace_length in Hy.
  split.
  - intros k -> Hk.
    destruct Hcase as [(_ & Ekx & Eky) | (Tn & _)].
    + injection Ekx as <-. injection Eky as <-. congruence.
    + cbn in Tn. unfold truthyZ in Tn.
      destruct (Z.eqb_spec k 0); [contradiction | discriminate Tn].
  - intros Tn.
    destruct Hcase as [(Tn' & _) | (_ & Ec & Er)]; [congruence |].
    exists ky, kx. repeat split; auto. congruence.
Qed.

Lemma grid_group_count_witness :
  exists shapes w',
    grid (Some 0%Z) (Some 2%Z) (Some 3%Z) (Some 200) 100 100 "rectangle" world0
    = (Ok shapes, w') /\
    List.length shapes = 6%nat.
Proof.
  destruct (grid (Some 0%Z) (Some 2%Z) (Some 3%Z) (Some 200) 100 100
              "rectangle" world0) as [r w'] eqn:E.
  assert (Hr : exists shapes, r = Ok shapes).
  { vm_compute in E. injection E as <- _. eexists. reflexivity. }
  destruct Hr as [shapes ->]. exists shapes, w'. split; [reflexivity |].
  destruct (grid_group_count _ _ _ _ _ _ _ _ _ _ E) as [_ H].
  destruct (H eq_refl) as (r & c & Er & Ec & Hlen).
  injection Er as <-. injection Ec as <-. exact Hlen.
Defined.

Lemma Forall2_transfer {A B : Type} (R : A -> B -> Prop) (P : A -> Prop)
  (Q : B -> Prop) (l : list A) (l' : list B) :
  (forall a b, P a -> R a b -> Q b) ->
  Forall2 R l l' -> Forall P l -> Forall Q l'.
Proof.
  intros H HR. induction HR as [| a b l l' Hab HR IH]; intros HP.
  - constructor.
  - apply Forall_cons_iff in HP. destruct HP as [Ha Hl].
    constructor; [eapply H; eauto | now apply IH].
Qed.

Lemma built_within_margins (m hx hy : Q) (shape : string) (cv : Canvas)
  (c : Q * Q) (sh : PShape.t) :
  m <= fst c <= inject_Z (shape0 cv) - m ->
  m <= snd c <= inject_Z (shape1 cv) - m ->
  built hx hy shape c sh -> within_margins m hx hy cv sh.
Proof.
  intros Hx Hy (Bx & By & _ & _ & Hpts).
  unfold within_margins. rewrite Bx, By. cbn [fst snd].
  split; [| repeat split; lra].
  eapply Forall_impl; [| exact Hpts].
  intros p (dx & dy & dz & -> & _). cbn [fresh_pline PLine.xo PLine.yo].
  split; assumption.
Qed.

(** X13: with a margin that leaves room on both axes, every group grid
    returns has its points anchored at least the margin away from every edge
    of the canvas, and its region reaches at most the half-extents beyond. *)
Theorem grid_keeps_margins (n rows columns : option Z) (m hx hy : Q)
  (shape : string) (w w' : World) (shapes : list PShape.t) :
  m <= inject_Z (shape0 (CANVAS w)) - m ->
  m <= inject_Z (shape1 (CANVAS w)) - m ->
  grid n rows columns (Some m) hx hy shape w = (Ok shapes, w') ->
  Forall (within_margins m hx hy (CANVAS w)) shapes.
Proof.
  intros Hm0 Hm1 Hrun.
  destruct (grid_returns_built _ _ _ _ _ _ _ _ _ _ Hrun)
    as (xs & ys & Hsp & Hall).
  destruct (grid_spaces_axes _ _ _ _ _ _ _ Hsp)
    as (m' & kx & ky & Em & Hx & Hy & _).
  injection Em as <-.
  apply linspace_range in Hx; [| lra]. apply linspace_range in Hy; [| lra].
  apply (Forall2_transfer (built hx hy shape)
           (fun c => m <= fst c <= inject_Z (shape0 (CANVAS w)) - m /\
                     m <= snd c <= inject_Z (shape1 (CANVAS w)) - m)
           _ _ _ (fun c sh Hc Hb =>
                    built_within_margins m hx hy shape (CANVAS w) c sh
                      (proj1 Hc) (proj2 Hc) Hb) Hall).
  apply Forall_forall. intros [x y] Hin.
  apply in_prod_iff in Hin. destruct Hin as [Ix Iy].
  rewrite Forall_forall in Hx, Hy.
  specialize (Hx x Ix). specialize (Hy y Iy). cbn [fst snd]. split; lra.
Qed.

Lemma grid_keeps_margins_witness :
  exists shapes w',
    grid (Some 2%Z) None None (Some 200) 100 100 "rectangle" world0
    = (Ok shapes, w') /\
    Forall (within_margins 200 100 100 CANVAS0) shapes.
Proof.
  destruct (grid (Some 2%Z) None None (Some 200) 100 100 "rectangle" world0)
    as [r w'] eqn:E.
  assert (Hr : exists shapes, r = Ok shapes).
  { vm_compute in E. injection E as <- _. eexists. reflexivity. }
  destruct Hr as [shapes ->]. exists shapes, w'. split; [reflexivity |].
  apply (grid_keeps_margins (Some 2%Z) None None 200 100 100 "rectangle"
           world0 w' shapes); [discriminate | discriminate | exact E].
Defined.

(** ** The frame loop and the shutdown *)

Lemma bind_ok {S A B : Type} (c : M S A) (k : A -> M S B) (s s1 : S) (a : A) :
  c s = (Ok a, s1) -> bind c k s = k a s1.
Proof. intros H. unfold bind. now rewrite H. Qed.

Lemma bind_raise {S A B : Type} (c : M S A) (k : A -> M S B) (s s1 : S)
  (e : exn) :
  c s = (Raise e, s1) -> bind c k s = (Raise e, s1).
Proof. intros H. unfold bind. now rewrite H. Qed.

Section FrameLoop.
Context {ext : Externals} {disp : Display}.

Lemma tick_group_display (k : nat) (ss : Session) :
  display (snd (tick_group k ss)) = display ss.
Proof.
  unfold tick_group.
  destruct (nth_error (psquares ss) k) as [sh |]; [| reflexivity].
  destruct (PShape.call (PShape.mkState sh (globals ss))) as [r st].
  reflexivity.
Qed.

Lemma groups_display (xs : list nat) (ss : Session) :
  display (snd (for_each xs tick_group ss)) = display ss.
Proof.
  apply (for_each_invariant (fun s => display s = display ss)).
  - intros k s H. now rewrite tick_group_display.
  - reflexivity.
Qed.

(** The two ways a pass of the loop can end. *)
Lemma frame_outcome (cap : bool) (d : Z) (ss : Session) :
  (exists e ss',
      frame cap d ss = (Raise e, ss') /\ display ss' = display ss)
  \/ (exists ss' px,
        frame cap d ss = (Ok (is_quit (keyboard ss (key_reads ss))), ss') /\
        keyboard ss' = keyboard ss /\
        key_reads ss' = Datatypes.S (key_reads ss) /\
        shown ss' = px :: shown ss /\
        written ss' = (if cap then px :: written ss else written ss) /\
        writer ss' = writer ss /\
        released ss' = released ss /\
        windows_destroyed ss' = windows_destroyed ss).
Proof.
  pose proof (groups_display (seq 0 (List.length (psquares ss))) ss) as Hd.
  unfold frame.
  rewrite (bind_ok get _ ss ss ss eq_refl). cbn beta zeta.
  destruct (for_each (seq 0 (List.length (psquares ss))) tick_group ss)
    as [[[] | e] s1] eqn:E; cbn [snd] in Hd.
  - right. rewrite (bind_ok _ _ _ _ _ E). unfold display in Hd.
    injection Hd as Hk Hr Hs Hw Hwr Hrel Hwin.
    destruct cap; do 2 eexists; (split; [cbn; rewrite Hk, Hr; reflexivity |]);
      cbn; rewrite ?Hk, ?Hr, ?Hs, ?Hw, ?Hwr, ?Hrel, ?Hwin;
      repeat split; reflexivity.
  - left. exists e, s1. rewrite (bind_raise _ _ _ _ _ E).
    split; [reflexivity | exact Hd].
Qed.

Lemma main_loop_quits (cap : bool) (d : Z) (m : nat) :
  forall fuel ss,
    (m < fuel)%nat -> quits_after m ss ->
    (exists ss',
        main_loop cap d fuel ss = (Ok true, ss') /\
        List.length (shown ss') = (Datatypes.S m + List.length (shown ss))%nat /\
        key_reads ss' = (Datatypes.S m + key_reads ss)%nat /\
        List.length (written ss')
        = ((if cap then Datatypes.S m else 0) + List.length (written ss))%nat /\
        released ss' = released ss /\
        windows_destroyed ss' = windows_destroyed ss)
    \/ (exists e ss',
          main_loop cap d fuel ss = (Raise e, ss') /\
          (List.length (shown ss') <= m + List.length (shown ss))%nat /\
          released ss' = released ss /\
          windows_destroyed ss' = windows_destroyed ss).
Proof.
  induction m as [| m IH]; intros fuel ss Hfuel [Hno Hq];
    (destruct fuel as [| fuel]; [lia |]); cbn [main_loop].
  - destruct (frame_outcome cap d ss)
      as [(e & ss' & Hf & Hd) | (ss' & px & Hf & Hk & Hr & Hs & Hw & _ & Hrel & Hwin)];
      [rewrite (bind_raise _ _ _ _ _ Hf) | rewrite (bind_ok _ _ _ _ _ Hf)].
    + right. exists e, ss'. unfold display in Hd.
      injection Hd as _ _ Hs _ _ Hrel Hwin.
      repeat split; auto. rewrite Hs. lia.
    + left. cbn [Nat.add] in Hq. rewrite Hq. exists ss'.
      split; [reflexivity |]. rewrite Hs, Hr, Hw.
      destruct cap; repeat split; auto.
  - destruct (frame_outcome cap d ss)
      as [(e & ss' & Hf & Hd) | (ss' & px & Hf & Hk & Hr & Hs & Hw & _ & Hrel & Hwin)];
      [rewrite (bind_raise _ _ _ _ _ Hf) | rewrite (bind_ok _ _ _ _ _ Hf)].
    + right. exists e, ss'. unfold display in Hd.
      injection Hd as _ _ Hs _ _ Hrel Hwin.
      repeat split; auto. rewrite Hs. lia.
    + pose proof (Hno 0%nat ltac:(lia)) as H0. cbn [Nat.add] in H0.
      rewrite H0.
      assert (Hq' : quits_after m ss').
      { split.
        - intros j Hj. rewrite Hk, Hr.
          replace (j + Datatypes.S (key_reads ss))%nat
            with (Datatypes.S j + key_reads ss)%nat by lia.
          apply Hno. lia.
        - rewrite Hk, Hr.
          replace (m + Datatypes.S (key_reads ss))%nat
            with (Datatypes.S m + key_reads ss)%nat by lia.
          exact Hq. }
      destruct (IH fuel ss' ltac:(lia) Hq')
        as [(s2 & -> & Ls & Lr & Lw & Lrel & Lwin)
           | (e & s2 & -> & Ls & Lrel & Lwin)].
      * left. exists s2. split; [reflexivity |].
        rewrite Ls, Lr, Lw, Hs, Hr, Hw, Lrel, Lwin.
        destruct cap; cbn [List.length]; repeat split; auto; lia.
      * right. exists e, s2. split; [reflexivity |].
        rewrite Lrel, Lwin. repeat split; auto.
        rewrite Hs in Ls. cbn [List.length] in Ls. lia.
Qed.

End FrameLoop.

Section Shutdown.
Context {ext : Externals} {disp : Display}.

(** What the loop leaves alone and how recording follows display, for any
    number of passes and any outcome. *)
Lemma main_loop_keeps (cap : bool) (d : Z) (fuel : nat) :
  forall ss,
    let r := fst (main_loop cap d fuel ss) in
    let ss' := snd (main_loop cap d fuel ss) in
    released ss' = released ss /\
    windows_destroyed ss' = windows_destroyed ss /\
    writer ss' = writer ss /\
    (if cap then written ss = shown ss -> written ss' = shown ss'
     else written ss' = written ss) /\
    (r = Ok true -> shown ss' <> []).
Proof.
  induction fuel as [| fuel IH]; intros ss; cbn [main_loop].
  - cbn. repeat split; auto; try (destruct cap; auto); discriminate.
  - destruct (frame_outcome cap d ss)
      as [(e & s1 & Hf & Hd)
         | (s1 & px & Hf & Hk & Hr & Hs & Hw & Hwr & Hrel & Hwin)];
      [rewrite (bind_raise _ _ _ _ _ Hf) | rewrite (bind_ok _ _ _ _ _ Hf)].
    + cbn [fst snd]. unfold display in Hd.
      injection Hd as _ _ Hs Hwr Hw Hrel Hwin.
      repeat split; auto; [| discriminate].
      destruct cap; congruence.
    + destruct (is_quit (keyboard ss (key_reads ss))).
      * cbn [ret fst snd]. repeat split; auto.
        -- destruct cap; congruence.
        -- intros _. rewrite Hs. discriminate.
      * specialize (IH s1). cbn zeta in IH.
        destruct IH as (I1 & I2 & I3 & I4 & I5).
        repeat split; try congruence; auto.
        destruct cap; [| congruence].
        intros H. apply I4. congruence.
Qed.

End Shutdown.

(** X14: the loop stops at the first key whose low byte is that of 'q'.  If
    the first m keys do not quit and the next one does, then more than m
    passes of fuel end the loop after exactly m+1 frames shown (and written,
    when recording) and m+1 keys read, unless a tick raised before, in which
    case at most m frames were shown; it is never left running. *)
Theorem loop_stops_at_first_q (ext : Externals) (disp : Display) (cap : bool)
  (d : Z) (m fuel : nat) (ss : Session) :
  (m < fuel)%nat -> quits_after m ss ->
  (exists ss',
      main_loop cap d fuel ss = (Ok true, ss') /\
      List.length (shown ss') = (Datatypes.S m + List.length (shown ss))%nat /\
      key_reads ss' = (Datatypes.S m + key_reads ss)%nat /\
      List.length (written ss')
      = ((if cap then Datatypes.S m else 0) + List.length (written ss))%nat)
  \/ (exists e ss',
        main_loop cap d fuel ss = (Raise e, ss') /\
        (List.length (shown ss') <= m + List.length (shown ss))%nat).
Proof.
  intros Hfuel Hq.
  destruct (main_loop_quits cap d m fuel ss Hfuel Hq)
    as [(ss' & H1 & H2 & H3 & H4 & _) | (e & ss' & H1 & H2 & _)].
  - left. exists ss'. auto.
  - right. exists e, ss'. auto.
Qed.

Lemma loop_stops_at_first_q_witness :
  exists ss',
    @main_loop still plain true 10 5
      (session0 (fun k => if Nat.eqb k 2 then 369%Z else (-1)%Z))
    = (Ok true, ss') /\
    List.length (shown ss') = 3%nat /\ key_reads ss' = 3%nat /\
    List.length (written ss') = 3%nat.
Proof.
  destruct (loop_stops_at_first_q still plain true 10 2 5
              (session0 (fun k => if Nat.eqb k 2 then 369%Z else (-1)%Z)))
    as [(ss' & H1 & H2 & H3 & H4) | (e & ss' & H1 & _)].
  - lia.
  - split; [| reflexivity].
    intros [| [| j]] Hj; [reflexivity | reflexivity | lia].
  - exists ss'. auto.
  - vm_compute in H1. discriminate H1.
Defined.

(** X15: shutting down.  From a fresh session, the script releases the
    video writer and destroys the windows only when the loop ended on a quit
    key; then every frame shown was also written, when recording, and at
    least one was shown.  When a tick (or the setup) raises, or while the
    loop is still running, the writer is not released and the windows are
    not destroyed; without recording nothing is written and no writer is
    opened. *)
Theorem script_shutdown (ext : Externals) (disp : Display) (cap : bool)
  (d : Z) (fuel : nat) (ss : Session) :
  fresh_session ss ->
  let r := fst (script cap d fuel ss) in
  let ss' := snd (script cap d fuel ss) in
  (r = Ok true ->
   released ss' = cap /\ windows_destroyed ss' = true /\
   shown ss' <> [] /\ (cap = true -> written ss' = shown ss')) /\
  (r <> Ok true ->
   released ss' = false /\ windows_destroyed ss' = false) /\
  (cap = false -> written ss' = [] /\ writer ss' = writer ss).
Proof.
  intros (Hs & Hw & Hrel & Hwin). unfold script.
  destruct (on_globals
              (grid (Some 3%Z) None None (Some 200) 100 100 "rectangle") ss)
    as [[groups | e] s1] eqn:Eg.
  - assert (Hd : display s1 = display ss).
    { unfold on_globals in Eg.
      destruct (grid _ _ _ _ _ _ _ (globals ss)) as [r0 w0].
      injection Eg as _ <-. reflexivity. }
    unfold display in Hd. injection Hd as _ _ Ds Dwr Dw Drel Dwin.
    rewrite (bind_ok _ _ _ _ _ Eg).
    rewrite (bind_ok (modify (set_psquares groups)) _ s1
               (set_psquares groups s1) tt eq_refl).
    set (s2 := set_psquares groups s1).
    set (s3 := snd ((if cap
                     then VideoWriter "output.avi" "DIVX" d (1000, 1000)%Z
                     else ret tt) s2)).
    assert (E3 : (if cap
                  then VideoWriter "output.avi" "DIVX" d (1000, 1000)%Z
                  else ret tt) s2 = (Ok tt, s3))
      by (unfold s3; destruct cap; reflexivity).
    rewrite (bind_ok _ _ _ _ _ E3).
    assert (F3 : shown s3 = [] /\ written s3 = [] /\ released s3 = false /\
                 windows_destroyed s3 = false /\
                 (cap = false -> writer s3 = writer ss)).
    { unfold s3, s2. destruct cap; cbn; repeat split; congruence. }
    destruct F3 as (S3 & W3 & R3 & D3 & Wr3).
    pose proof (main_loop_keeps cap d fuel s3) as Hloop. cbn zeta in Hloop.
    destruct (main_loop cap d fuel s3) as [[stopped | e] s4] eqn:El;
      cbn [fst snd] in Hloop;
      destruct Hloop as (L1 & L2 & L3 & L4 & L5).
    + rewrite (bind_ok _ _ _ _ _ El).
      destruct stopped.
      * specialize (L5 eq_refl).
        destruct cap; cbn; (split; [| split]).
        -- intros _.
           split; [reflexivity | split; [reflexivity | split; [exact L5 |]]].
           intros _. apply L4. congruence.
        -- intros H. exfalso. apply H. reflexivity.
        -- intros H. discriminate H.
        -- intros _.
           split; [congruence | split; [reflexivity | split; [exact L5 |]]].
           intros H. discriminate H.
        -- intros H. exfalso. apply H. reflexivity.
        -- intros _. split; [congruence | rewrite L3; now apply Wr3].
      * cbn. split; [| split].
        -- intros H. discriminate H.
        -- intros _. split; congruence.
        -- intros ->. split; [congruence | rewrite L3; now apply Wr3].
    + rewrite (bind_raise _ _ _ _ _ El). cbn [fst snd].
      split; [| split].
      * intros H. discriminate H.
      * intros _. split; congruence.
      * intros ->. split; [congruence | rewrite L3; now apply Wr3].
  - assert (Hd : display s1 = display ss).
    { unfold on_globals in Eg.
      destruct (grid _ _ _ _ _ _ _ (globals ss)) as [r0 w0].
      injection Eg as _ <-. reflexivity. }
    unfold display in Hd. injection Hd as _ _ Ds Dwr Dw Drel Dwin.
    rewrite (bind_raise _ _ _ _ _ Eg). cbn [fst snd].
    split; [| split].
    + intros H. discriminate H.
    + intros _. split; congruence.
    + intros _. split; congruence.
Qed.

Lemma script_shutdown_witness :
  let r := fst (@script still plain capture delay 1 (session0 (fun _ => 113%Z))) in
  let ss' := snd (@script still plain capture delay 1
                    (session0 (fun _ => 113%Z))) in
  (r = Ok true ->
   released ss' = capture /\ windows_destroyed ss' = true /\
   shown ss' <> [] /\ (capture = true -> written ss' = shown ss')) /\
  (r <> Ok true ->
   released ss' = false /\ windows_destroyed ss' = false) /\
  (capture = false -> written ss' = [] /\ writer ss' = None).
Proof.
  apply (script_shutdown still plain capture delay 1
           (session0 (fun _ => 113%Z))).
  repeat split.
Defined.
